(** * errx: chained errors with stack traces

    A shallow embedding of the Go package [github.com/1gm/errx] and the
    properties its specification states about it.

    The repository holds several revisions of its two components side by
    side.  Each revision is embedded in a module of its own, named after
    what sets it apart:

    - [Stack]      src/unnamed/part_003: [AdjustCallerSkipLevel], traces
                   as slices ([type StackTrace []StackFrame]);
    - [StackPtr]   src/unnamed/part_002 (second file): [SetCallerSkipLevel],
                   traces behind a pointer ([*StackTrace]);
    - [Fmt]        src/unnamed/part_000 (and the first file of part_002):
                   the method [error(depth, separator, printStack)] of [Error];
    - [Print]      src/unnamed/part_001: [PrintMessages], [PrintWithStack];
    - [ErrorGo]    src/error.go: the method [error(depth)] of [Error];
    - [Heap]       the same [wrapErr] over an explicit store of [Error]
                   structs, for the statements about aliasing.

    What all the revisions share ([pad], [isZero], [newErr], [wrapErr],
    [trimGOPATH], the frame printer) is defined once, before the modules.

    Go values are modelled as follows.  A [string] is a sequence of bytes.
    An [int] is a [Z]; the one place where an [int] computed from caller
    input can wrap around ([AdjustCallerSkipLevel]) spells the wrap-around
    out.  A run-time panic is the [Panic] outcome of the [result] monad, so
    that "does not panic" is a statement and not a property of the model. *)

From stdpp Require Import base option list strings gmap.
From Stdlib Require Import ZArith Lia DecimalString Ascii.

Local Open Scope Z_scope.

(** ** Panics *)

Inductive panic : Set :=
| nil_dereference      (* invalid memory address or nil pointer dereference *)
| slice_out_of_range   (* slice bounds out of range *)
| negative_repeat.     (* strings: negative Repeat count *)

Inductive result (A : Type) : Type :=
| Ok (a : A)
| Panic (p : panic).
Arguments Ok {A} a.
Arguments Panic {A} p.

#[global] Instance result_ret : MRet result := λ A a, Ok a.
#[global] Instance result_bind : MBind result :=
  λ A B f m, match m with Ok a => f a | Panic p => Panic p end.

(** ** Strings: the parts of Go's [strings], [bytes] and [fmt] the package uses *)

(** [len(s)] *)
Definition len (s : string) : Z := Z.of_nat (String.length s).

(** [s[lo:hi]], which panics unless [0 <= lo <= hi <= len(s)]. *)
Definition slice (s : string) (lo hi : Z) : result string :=
  if bool_decide (0 ≤ lo ∧ lo ≤ hi ∧ hi ≤ len s)
  then Ok (String.substring (Z.to_nat lo) (Z.to_nat (hi - lo)) s)
  else Panic slice_out_of_range.

(** [s[:hi]] and [s[lo:]] *)
Definition slice_to (s : string) (hi : Z) : result string := slice s 0 hi.
Definition slice_from (s : string) (lo : Z) : result string := slice s lo (len s).

Fixpoint repeat_string (s : string) (n : nat) : string :=
  match n with
  | O => ""
  | S n' => s +:+ repeat_string s n'
  end.

(** [strings.Repeat(s, count)]; it panics on a negative count. *)
Definition strings_Repeat (s : string) (count : Z) : result string :=
  if bool_decide (count < 0) then Panic negative_repeat
  else Ok (repeat_string s (Z.to_nat count)).

(** [strings.Replace(s, old, new, -1)]: every non-overlapping instance of
    [old], from the left.  [skip] counts the bytes of a matched [old] that
    are still to be dropped.  With an empty [old] Go inserts [new] before
    every rune and at the end; the bytewise reading below agrees with it on
    ASCII text (the package never passes an empty [old]). *)
Fixpoint replace_from (old new s : string) (skip : nat) : string :=
  match s with
  | EmptyString => ""
  | String c s' =>
      match skip with
      | S k => replace_from old new s' k
      | O =>
          if String.prefix old s
          then new +:+ replace_from old new s' (String.length old - 1)
          else String c (replace_from old new s' 0)
      end
  end.

Fixpoint intersperse_string (new s : string) : string :=
  match s with
  | EmptyString => new
  | String c s' => new +:+ String c (intersperse_string new s')
  end.

Definition strings_Replace (s old new : string) : string :=
  match old with
  | EmptyString => intersperse_string new s
  | _ => replace_from old new s 0
  end.

(** The path separator [sep = "/"] is a single byte, [sepLen = len(sep)]. *)
Definition sep : ascii := Ascii.ascii_of_nat 47.
Definition sepLen : Z := 1.

(** [strings.Count(s, sep)]: for a one-byte separator, the number of bytes
    of [s] equal to it. *)
Fixpoint strings_Count (s : string) : nat :=
  match s with
  | EmptyString => 0
  | String c s' => ((if Ascii.eqb c sep then 1 else 0) + strings_Count s')%nat
  end.

(** [strings.LastIndex(s, sep)]: the index of the last instance of [sep] in
    [s], or [-1] when there is none. *)
Fixpoint strings_LastIndex (s : string) : Z :=
  match s with
  | EmptyString => -1
  | String c s' =>
      let r := strings_LastIndex s' in
      if r =? -1 then (if Ascii.eqb c sep then 0 else -1) else r + 1
  end.

(** The verb [%d] of [fmt.Sprintf]. *)
Definition itoa (z : Z) : string := NilZero.string_of_int (Z.to_int z).

Definition newline : string := String (Ascii.ascii_of_nat 10) "".

(** [bytes.Buffer], of which the package uses [Len], [WriteString] and
    [String]: the bytes written so far. *)
Definition WriteString (b : string) (s : string) : string := b +:+ s.

(** ** Stack frames and traces *)

(** [type StackFrame struct] (part_003, lines 34-43; the older revision calls
    the fields [Name], [File], [TrimmedFileLine], [Line]). *)
Record StackFrame : Set := mkStackFrame {
  FunctionName : string;
  FileName : string;
  TrimmedFileName : string;
  Line : Z
}.

(** A trace as an [Error] holds it.  In [Stack] and [Fmt] it is a slice
    ([StackTrace []StackFrame]): [None] is the nil slice, [Some fs] a slice
    that is not nil.  In [StackPtr], [Print] and [ErrorGo] it is a pointer
    ([*StackTrace], a struct with the one field [Frames]): [None] is the nil
    pointer, [Some fs] a pointer to a struct whose [Frames] are [fs]. *)
Abbreviation Trace := (option (list StackFrame)).

(** The method [String] of [StackFrame] *)
Definition StackFrame_String (s : StackFrame) : string :=
  "  at " +:+ FunctionName s +:+ "(" +:+ TrimmedFileName s +:+ ":"
    +:+ itoa (Line s) +:+ ")" +:+ newline.

(** [StackTrace.String]: the frames' lines, written to one buffer in order. *)
Definition frames_String (fs : list StackFrame) : string :=
  foldl (λ b f, WriteString b (StackFrame_String f)) "" fs.

Definition StackTrace_String (s : Trace) : string :=
  frames_String (default [] s).

(** What the Go runtime knows of one program counter:
    [runtime.FuncForPC(pc).Name()] and [.FileLine(pc)].  Every program counter
    [runtime.Callers] returns is taken to lie in a Go function, so that
    [FuncForPC] finds it. *)
Record Func : Set := mkFunc {
  Name : string;
  File : string;
  FileLine : Z
}.

Definition maxStackDepth : nat := 32.

(** [runtime.Callers(skip, pcs[:])] over the goroutine's stack, innermost
    frame first, the frame of [Callers] itself at index 0: the entries written
    to [pcs], at most [len(pcs) = maxStackDepth] of them. *)
Definition runtime_Callers (skip : Z) (goroutine : list Func) : list Func :=
  take maxStackDepth (drop (Z.to_nat skip) goroutine).

(** [trimGOPATH] (part_003, lines 84-121; part_002, lines 203-240).  The loop
    [for n := 0; n < goal; n++] runs at most [goal] times; [rounds] is the
    number of rounds left.  It yields the value of [i] after the loop. *)
Fixpoint trimGOPATH_loop (file : string) (rounds : nat) (i : Z) : result Z :=
  match rounds with
  | O => Ok i
  | S rounds' =>
      head ← slice_to file i;
      let i := strings_LastIndex head in
      if i =? -1 then Ok (- sepLen)
      else trimGOPATH_loop file rounds' i
  end.

Definition trimGOPATH (name file : string) : result string :=
  let goal := (strings_Count name + 2)%nat in
  i ← trimGOPATH_loop file goal (len file);
  slice_from file (i + sepLen).

(** The state the capture reads: the package variable [callerSkipLevel] and
    the stack of the calling goroutine at the moment [runtime.Callers] runs
    inside [getStack]. *)
Record Runtime : Set := mkRuntime {
  callerSkipLevel : Z;
  goroutine : list Func
}.

(** [st = append(st, frame)] on a slice that may be nil: never nil after. *)
Definition append_frame (st : Trace) (f : StackFrame) : Trace :=
  Some (default [] st ++ [f]).

(** The body of [for _, pc := range pcs[0:n]] in [getStack], the same in both
    revisions. *)
Fixpoint getStack_loop (pcs : list Func) (st : Trace) : result Trace :=
  match pcs with
  | [] => Ok st
  | pc :: pcs' =>
      let name := Name pc in
      let fileName := File pc in
      let line := FileLine pc in
      trimmed ← trimGOPATH name fileName;
      getStack_loop pcs' (append_frame st (mkStackFrame name fileName trimmed line))
  end.

(** A Go [int] of 64 bits: the value of an [int] expression whose exact
    value is [z].  (Where an [int] has 32 bits the statements below hold the
    same: none depends on where the addition wraps.) *)
Definition int_wrap (z : Z) : Z := (z + 2 ^ 63) `mod` 2 ^ 64 - 2 ^ 63.

(** *** part_003: the skip level is adjusted, and clamped *)

Module Stack.

Definition minCallerSkipLevel : Z := 4.

(** [var callerSkipLevel = minCallerSkipLevel] *)
Definition callerSkipLevel_init : Z := minCallerSkipLevel.

(** [AdjustCallerSkipLevel(amt)] (part_003, lines 24-31): the new value of
    the package variable, from the old one. *)
Definition AdjustCallerSkipLevel (amt : Z) (callerSkipLevel : Z) : Z :=
  let newCallerSkipLevel := int_wrap (callerSkipLevel + amt) in
  if bool_decide (newCallerSkipLevel >= minCallerSkipLevel)
  then newCallerSkipLevel
  else minCallerSkipLevel.

(** [getStack] (part_003, lines 67-80): [var st StackTrace] is the nil slice
    and stays nil when no frame is appended. *)
Definition getStack (rt : Runtime) : result Trace :=
  getStack_loop (runtime_Callers (callerSkipLevel rt) (goroutine rt)) None.

End Stack.

(** *** part_002: the skip level is set, and added to the four frames of the package *)

Module StackPtr.

(** [var callerSkipLevel int] *)
Definition callerSkipLevel_init : Z := 0.

(** [SetCallerSkipLevel(level)] (part_002, lines 152-154). *)
Definition SetCallerSkipLevel (level : Z) (callerSkipLevel : Z) : Z := level.

(** [getStack] (part_002, lines 181-194): [st := &StackTrace{}] is never nil. *)
Definition getStack (rt : Runtime) : result Trace :=
  getStack_loop (runtime_Callers (int_wrap (4 + callerSkipLevel rt)) (goroutine rt))
    (Some []).

End StackPtr.

(** ** The chain model *)

(** A value of Go's interface type [error], as the package can tell values
    apart: the nil interface; a [*Error], which is the nil pointer or points
    to a struct; or a value of any other dynamic type, of which the package
    uses only what its method [Error()] returns.

    [type Error struct { Inner error; Message string; StackTrace ... }].
    The struct a [ref] points to is given by value: this is the chain as
    built by [New] and [Wrap], which never write to a struct they did not
    allocate.  The module [Heap] has the store and the pointers. *)
Inductive error : Type :=
| nil_error
| nil_ptr
| ref (e : Error)
| foreign (msg : string)
with Error : Type :=
| mkError (Inner : error) (Message : string) (StackTrace : Trace).

Definition Inner (e : Error) : error := let (i, _, _) := e in i.
Definition Message (e : Error) : string := let (_, m, _) := e in m.
Definition StackTrace (e : Error) : Trace := let (_, _, s) := e in s.

Scheme Error_chain_ind := Induction for Error Sort Prop
  with error_chain_ind := Induction for error Sort Prop.

(** [e.Inner == nil], [e.Message == ""] and [e.StackTrace == nil].  An
    interface that holds a nil [*Error] is not the nil interface. *)
Definition is_nil_error (err : error) : bool :=
  match err with nil_error => true | _ => false end.

Definition is_empty (s : string) : bool :=
  match s with EmptyString => true | _ => false end.

Definition is_nil_trace (s : Trace) : bool :=
  match s with None => true | Some _ => false end.

(** The method [isZero] of [Error]. *)
Definition Error_isZero (e : Error) : bool :=
  is_nil_error (Inner e) && is_empty (Message e) && is_nil_trace (StackTrace e).

(** [pad(b, str)]: the buffer after the call. *)
Definition pad (b : string) (str : string) : string :=
  if bool_decide (len b = 0) then b else WriteString b str.

Definition padding : string := " ".

(** The constant [separator] of error.go, part_001 and part_002.  In part_000
    the name is only the parameter of [error]. *)
Definition separator : string := "  ".

(** The method [Error()] of an [error] value that is not of this package's
    making, called through the interface. *)
Definition error_Error_foreign (msg : string) : string := msg.

Section chain.

(** The call [getStack()] at the call site at hand: [Stack.getStack] or
    [StackPtr.getStack] on the state of the runtime there. *)
Variable getStack : result Trace.

(** [newErr] *)
Definition newErr (message : string) : result error :=
  st ← getStack;
  Ok (ref (mkError nil_error message st)).

(** [wrapErr].  The comma-ok assertion [err.( *Error)] succeeds for every
    [*Error], the nil pointer included; [copied := *inner] then dereferences
    it. *)
Definition wrapErr (err : error) (message : string) : result error :=
  match err with
  | ref inner =>
      let copied := inner in
      Ok (ref (mkError (ref copied) message None))
  | nil_ptr => Panic nil_dereference
  | _ =>
      st ← getStack;
      Ok (ref (mkError err message st))
  end.

End chain.

(** The tail of the three renderers that print traces: after the messages,
    [e.StackTrace.String()], re-indented below the top level.  [sepr] is the
    string the revision repeats ([separator]: the parameter in part_000, the
    constant elsewhere). *)
Definition write_stack (b : string) (sepr : string) (depth : Z) (st : Trace)
  : result string :=
  let b := WriteString b newline in
  if bool_decide (depth > 0) then
    prefix ← strings_Repeat sepr (depth + 1);
    old ← slice_from prefix (depth * 2);
    Ok (WriteString b (strings_Replace (StackTrace_String st) old prefix))
  else Ok (WriteString b (StackTrace_String st)).

(** *** part_000: one renderer, two flags *)

Module Fmt.

(** The method [error(depth, separator, printStack)] of [Error] (part_000,
    lines 110-140; part_002, lines 34-64). *)
Fixpoint Error_error (e : Error) (depth : Z) (separator : string)
    (printStack : bool) : result string :=
  let b := "" in
  let b := if negb (is_empty (Message e))
           then WriteString (pad b padding) (Message e) else b in
  b ← match Inner e with
      | nil_error => Ok b
      | nil_ptr => Panic nil_dereference
      | ref inner =>
          if negb (Error_isZero inner) then
            let b := pad b separator in
            s ← Error_error inner (depth + 1) separator printStack;
            Ok (WriteString b s)
          else Ok b
      | foreign msg =>
          let b := pad b separator in
          Ok (WriteString b (error_Error_foreign msg))
      end;
  if negb (is_nil_trace (StackTrace e)) && printStack
  then write_stack b separator depth (StackTrace e)
  else Ok b.

(** The method [Error()] of [Error] (part_000, lines 87-89). *)
Definition Error_Error (e : Error) : result string :=
  Error_error e 0 ": " false.

(** [Format] (part_000, lines 92-106): what is printed to [f] for the verb [c]
    when the flag [-] is set ([minus]) or not. *)
Definition Error_Format (e : Error) (minus : bool) (c : ascii) : result string :=
  if Ascii.eqb c (Ascii.ascii_of_nat 118) || Ascii.eqb c (Ascii.ascii_of_nat 115)
  then (if minus then Error_error e 0 ": " false else Error_error e 0 ": " true)
  else Ok "".

(** [New] and [Wrap] (part_000, lines 155-157 and 168-170), with the capture
    of part_003. *)
Definition New (rt : Runtime) (message : string) : result error :=
  newErr (Stack.getStack rt) message.

Definition Wrap (rt : Runtime) (err : error) (message : string) : result error :=
  wrapErr (Stack.getStack rt) err message.

End Fmt.

(** [err.Error()] through the interface, for the revisions where [Error()] of
    an [Error] is [render]: on the nil interface and on a nil [*Error] the
    call dereferences nil. *)
Definition error_Error (render : Error → result string) (err : error)
  : result string :=
  match err with
  | nil_error => Panic nil_dereference
  | nil_ptr => Panic nil_dereference
  | ref e => render e
  | foreign msg => Ok (error_Error_foreign msg)
  end.

(** *** part_001: two renderers and two printing helpers *)

Module Print.

(** The method [message(depth)] of [Error] (part_001, lines 45-65). *)
Fixpoint Error_message (e : Error) (depth : Z) : result string :=
  let b := "" in
  let b := if negb (is_empty (Message e))
           then WriteString (pad b " ") (Message e) else b in
  match Inner e with
  | nil_error => Ok b
  | nil_ptr => Panic nil_dereference
  | ref inner =>
      if negb (Error_isZero inner) then
        let b := pad b ": " in
        s ← Error_message inner (depth + 1);
        Ok (WriteString b s)
      else Ok b
  | foreign msg =>
      let b := pad b ": " in
      Ok (WriteString b (error_Error_foreign msg))
  end.

(** The method [printStack(depth)] of [Error] (part_001, lines 71-102). *)
Fixpoint Error_printStack (e : Error) (depth : Z) : result string :=
  let b := "" in
  let b := if negb (is_empty (Message e))
           then WriteString (pad b padding) (Message e) else b in
  b ← match Inner e with
      | nil_error => Ok b
      | nil_ptr =>
          _ ← strings_Repeat separator (depth + 1);
          Panic nil_dereference
      | ref inner =>
          rep ← strings_Repeat separator (depth + 1);
          let repeatedSep := newline +:+ rep in
          if negb (Error_isZero inner) then
            let b := pad b repeatedSep in
            s ← Error_printStack inner (depth + 1);
            Ok (WriteString b s)
          else Ok b
      | foreign msg =>
          let b := pad b padding in
          Ok (WriteString b (error_Error_foreign msg))
      end;
  if negb (is_nil_trace (StackTrace e))
  then write_stack b separator depth (StackTrace e)
  else Ok b.

(** The method [Error()] of [Error] (part_001, lines 41-43). *)
Definition Error_Error (e : Error) : result string := Error_message e 0.

(** [PrintMessages] (part_001, lines 9-19). *)
Definition PrintMessages (err : error) : result string :=
  match err with
  | nil_error => Ok ""
  | nil_ptr => Panic nil_dereference
  | ref e => Error_message e 0
  | foreign _ => error_Error Error_Error err
  end.

(** [PrintWithStack] (part_001, lines 21-31). *)
Definition PrintWithStack (err : error) : result string :=
  match err with
  | nil_error => Ok ""
  | nil_ptr => Panic nil_dereference
  | ref e => Error_printStack e 0
  | foreign _ => error_Error Error_Error err
  end.

Definition New (rt : Runtime) (message : string) : result error :=
  newErr (StackPtr.getStack rt) message.

Definition Wrap (rt : Runtime) (err : error) (message : string) : result error :=
  wrapErr (StackPtr.getStack rt) err message.

End Print.

(** *** error.go: one renderer, which always prints the traces *)

Module ErrorGo.

(** The method [error(depth)] of [Error] (error.go, lines 25-56).  The local
    [separator] of lines 34-36 is [repeatedSep] here; line 48 reads the
    constant again. *)
Fixpoint Error_error (e : Error) (depth : Z) : result string :=
  let b := "" in
  let b := if negb (is_empty (Message e))
           then WriteString (pad b padding) (Message e) else b in
  b ← match Inner e with
      | nil_error => Ok b
      | nil_ptr =>
          _ ← strings_Repeat separator (depth + 1);
          Panic nil_dereference
      | ref inner =>
          rep ← strings_Repeat separator (depth + 1);
          let repeatedSep := newline +:+ rep in
          if negb (Error_isZero inner) then
            let b := pad b repeatedSep in
            s ← Error_error inner (depth + 1);
            Ok (WriteString b s)
          else Ok b
      | foreign msg =>
          let b := pad b padding in
          Ok (WriteString b (error_Error_foreign msg))
      end;
  if negb (is_nil_trace (StackTrace e))
  then write_stack b separator depth (StackTrace e)
  else Ok b.

(** The method [Error()] of [Error] (error.go, lines 17-19). *)
Definition Error_Error (e : Error) : result string := Error_error e 0.

(** [New] and [Wrap] (error.go, lines 72-74 and 85-87). *)
Definition New (rt : Runtime) (message : string) : result error :=
  newErr (StackPtr.getStack rt) message.

Definition Wrap (rt : Runtime) (err : error) (message : string) : result error :=
  wrapErr (StackPtr.getStack rt) err message.

(** [GetInner] (error.go, lines 119-125): [e.Inner] reads through the
    pointer the assertion returned. *)
Definition GetInner (err : error) : result error :=
  match err with
  | ref e => Ok (Inner e)
  | nil_ptr => Panic nil_dereference
  | _ => Ok nil_error
  end.

(** [GetStackTrace] (error.go, lines 128-134). *)
Definition GetStackTrace (err : error) : result Trace :=
  match err with
  | ref e => Ok (StackTrace e)
  | nil_ptr => Panic nil_dereference
  | _ => Ok None
  end.

End ErrorGo.

(** *** part_002, first file: the same renderer, an older [Format] *)

Module FmtOld.

(** [Format] (part_002, lines 22-32): [%v] prints the traces, [%s] does not,
    and [%-s] prints the message of the node alone. *)
Definition Error_Format (e : Error) (minus : bool) (c : ascii) : result string :=
  if Ascii.eqb c (Ascii.ascii_of_nat 118) then Fmt.Error_error e 0 ": " true
  else if Ascii.eqb c (Ascii.ascii_of_nat 115) then
    (if minus then Ok (Message e) else Fmt.Error_error e 0 ": " false)
  else Ok "".

End FmtOld.

(** *** The store: [Error] structs behind pointers *)

Module Heap.

(** A pointer to an [Error] struct that is not nil. *)
Abbreviation loc := positive.

(** A value of the interface type [error], as [error] above, with a
    location where that one has the struct. *)
Inductive value : Set :=
| vnil
| vnil_ptr
| vref (l : loc)
| vforeign (msg : string).

(** An [Error] struct in the store: its three fields. *)
Record cell : Set := mkCell {
  cInner : value;
  cMessage : string;
  cStackTrace : Trace
}.

Abbreviation heap := (gmap loc cell).

(** [&Error{...}] and [copied := *inner; &copied]: a struct at a location
    that was not in use. *)
Definition alloc (h : heap) (c : cell) : heap * loc :=
  let l := fresh (dom h) in (<[l := c]> h, l).

(** [*p].  Go has no pointer to a struct that is not there; the model
    reports a location outside the store as a nil dereference. *)
Definition deref (h : heap) (l : loc) : result cell :=
  match h !! l with
  | Some c => Ok c
  | None => Panic nil_dereference
  end.

(** Assignments to the fields of [*l]: [l.Inner = ...; l.Message = ...;
    l.StackTrace = ...], any of them, to any values.  (A write to an element
    of a trace, [l.StackTrace[0] = ...], assigns to no field of [*l]; the
    slice it writes through is shared by every copy of the struct.) *)
Definition assign (h : heap) (l : loc) (c : cell) : heap := <[l := c]> h.

(** [wrapErr] (part_000, lines 187-199), statement by statement. *)
Definition wrapErr (getStack : result Trace) (h : heap) (err : value)
    (message : string) : result (heap * value) :=
  let '(h, e) := alloc h (mkCell vnil message None) in
  match err with
  | vref inner =>
      c ← deref h inner;
      let '(h, copied) := alloc h c in
      Ok (assign h e (mkCell (vref copied) message None), vref e)
  | vnil_ptr => Panic nil_dereference
  | _ =>
      st ← getStack;
      Ok (assign h e (mkCell err message st), vref e)
  end.

(** [GetInner] and [GetStackTrace] (error.go, lines 119-134) on the store:
    [e.Inner] and [e.StackTrace] read the struct behind the pointer the
    assertion returned.  ([wrapErr] of error.go, lines 104-116, is that of
    part_000 statement for statement.) *)
Definition GetInner (h : heap) (err : value) : result value :=
  match err with
  | vref e => c ← deref h e; Ok (cInner c)
  | vnil_ptr => Panic nil_dereference
  | _ => Ok vnil
  end.

Definition GetStackTrace (h : heap) (err : value) : result Trace :=
  match err with
  | vref e => c ← deref h e; Ok (cStackTrace c)
  | vnil_ptr => Panic nil_dereference
  | _ => Ok None
  end.

(** The chain a value heads in the store, read off as an [error]; [None]
    when the chain is longer than [fuel] (a store can hold a cycle, on which
    every renderer of the package recurses for ever) or leaves the store. *)
Fixpoint load (fuel : nat) (h : heap) (v : value) : option error :=
  match v with
  | vnil => Some nil_error
  | vnil_ptr => Some nil_ptr
  | vforeign msg => Some (foreign msg)
  | vref l =>
      match fuel with
      | O => None
      | S fuel' =>
          c ← h !! l;
          i ← load fuel' h (cInner c);
          Some (ref (mkError i (cMessage c) (cStackTrace c)))
      end
  end.

(** [err.Error()] and [fmt.Sprintf("%v", err)] of part_000 on a value in the
    store: the renderers read the store only along the chain. *)
Definition Error_Error (fuel : nat) (h : heap) (v : value) : option (result string) :=
  error_Error Fmt.Error_Error <$> load fuel h v.

Definition Error_Format (fuel : nat) (h : heap) (v : value) (minus : bool) (c : ascii)
  : option (result string) :=
  error_Error (λ e, Fmt.Error_Format e minus c) <$> load fuel h v.

End Heap.

(** ** The notions the statements below use *)

(** The frame [getStack] records for a program counter. *)
Definition captures (pc : Func) (f : StackFrame) : Prop :=
  FunctionName f = Name pc ∧ FileName f = File pc ∧ Line f = FileLine pc ∧
  trimGOPATH (Name pc) (File pc) = Ok (TrimmedFileName f).

(** [sep] as a string. *)
Definition sep_string : string := String sep "".

(** A chain in which no [Inner] holds a nil [*Error]. *)
Fixpoint no_nil_ptr (e : Error) : bool :=
  match Inner e with
  | nil_ptr => false
  | ref inner => no_nil_ptr inner
  | _ => true
  end.

(** The strings along the chain of [e], outermost first: the message of
    every node down to, and without, the first inner node that is zero, and at
    the end of a chain that ends in a foreign error what its [Error()]
    returns. *)
Fixpoint links (e : Error) : list string :=
  Message e ::
    match Inner e with
    | ref inner => if Error_isZero inner then [] else links inner
    | foreign msg => [error_Error_foreign msg]
    | _ => []
    end.

(** The text the message-only walk makes of the links: each link, and after a
    link that is not empty and not the last one the separator. *)
Fixpoint chain_text (ms : list string) : string :=
  match ms with
  | [] => ""
  | m :: ms' =>
      match ms' with
      | [] => m
      | _ => pad m ": " +:+ chain_text ms'
      end
  end.


(** The chain without its traces: two nodes "agree on their message and inner
    fields" all the way down exactly when they have the same erasure. *)
Fixpoint erase_traces (e : Error) : Error :=
  mkError
    match Inner e with
    | ref inner => ref (erase_traces inner)
    | i => i
    end
    (Message e) None.

(** Inner nodes at the same place of two chains are zero together. *)
Fixpoint same_zeros (e1 e2 : Error) : Prop :=
  match Inner e1, Inner e2 with
  | ref i1, ref i2 => Error_isZero i1 = Error_isZero i2 ∧ same_zeros i1 i2
  | _, _ => True
  end.

(** The chain with every frame dropped from every trace; nil traces stay nil. *)
Fixpoint drop_frames (e : Error) : Error :=
  mkError
    match Inner e with
    | ref inner => ref (drop_frames inner)
    | i => i
    end
    (Message e)
    (match StackTrace e with Some _ => Some [] | None => None end).

(** The chains [New] and [Wrap] build: a node with a nil inner error
    ([New(m)], [Wrap(nil, m)]), a node around a foreign error, or a node
    without a trace around a copy of a chain built before. *)
Inductive built : Error → Prop :=
| built_New (message : string) (st : Trace) :
    built (mkError nil_error message st)
| built_Wrap_foreign (msg message : string) (st : Trace) :
    built (mkError (foreign msg) message st)
| built_Wrap (inner : Error) (message : string) :
    built inner → built (mkError (ref inner) message None).

(** The last node of a chain, and the number of nodes above it. *)
Fixpoint innermost (e : Error) : Error :=
  match Inner e with
  | ref inner => innermost inner
  | _ => e
  end.

Fixpoint wraps (e : Error) : nat :=
  match Inner e with
  | ref inner => S (wraps inner)
  | _ => O
  end.

(** [strings.Contains(s, old)] *)
Fixpoint contains (old s : string) : bool :=
  String.prefix old s ||
  match s with
  | EmptyString => false
  | String _ s' => contains old s'
  end.

(** A line of a trace without its two spaces of indentation. *)
Definition frame_text (f : StackFrame) : string :=
  "at " +:+ FunctionName f +:+ "(" +:+ TrimmedFileName f +:+ ":"
    +:+ itoa (Line f) +:+ ")" +:+ newline.

(** ** Example data *)

(** The goroutine's stack inside [getStack] when [main.main] calls [New]
    (the frames of the package first), and the runtime with the skip level
    the package starts with. *)
Definition goroutine_main : list Func :=
  [ mkFunc "runtime.Callers" "/usr/local/go/src/runtime/extern.go" 247;
    mkFunc "github.com/1gm/errx.getStack" "/home/user/go/src/github.com/1gm/errx/stack.go" 71;
    mkFunc "github.com/1gm/errx.newErr" "/home/user/go/src/github.com/1gm/errx/error.go" 183;
    mkFunc "github.com/1gm/errx.New" "/home/user/go/src/github.com/1gm/errx/error.go" 156;
    mkFunc "main.main" "/home/user/go/src/examples/main.go" 13;
    mkFunc "runtime.main" "/usr/local/go/src/runtime/proc.go" 207;
    mkFunc "runtime.goexit" "/usr/local/go/src/runtime/asm_amd64.s" 2362 ].

Definition rt_main : Runtime := mkRuntime Stack.callerSkipLevel_init goroutine_main.

(** The same after [AdjustCallerSkipLevel(36)]: more frames to skip than the
    stack has. *)
Definition rt_deep : Runtime :=
  mkRuntime (Stack.AdjustCallerSkipLevel 36 Stack.callerSkipLevel_init) goroutine_main.

(** The trace [New] captures in [rt_main]. *)
Definition trace_main : list StackFrame :=
  [ mkStackFrame "main.main" "/home/user/go/src/examples/main.go" "examples/main.go" 13;
    mkStackFrame "runtime.main" "/usr/local/go/src/runtime/proc.go" "runtime/proc.go" 207;
    mkStackFrame "runtime.goexit" "/usr/local/go/src/runtime/asm_amd64.s"
      "runtime/asm_amd64.s" 2362 ].

(** [Wrap(New(""), "a")] in [rt_main], and the same chain when the capture
    of [New] finds no frame ([rt_deep]). *)
Definition wrapped_empty : Error :=
  mkError (ref (mkError nil_error "" (Some trace_main))) "a" None.

Definition wrapped_zero : Error :=
  mkError (ref (mkError nil_error "" None)) "a" None.


(** The runtime of the older capture, with the level it starts with. *)
Definition rt_main_ptr : Runtime := mkRuntime StackPtr.callerSkipLevel_init goroutine_main.

(** A store with one struct, [New("inner")] of [rt_main]. *)
Definition heap_inner : Heap.heap :=
  {[ 1%positive := Heap.mkCell Heap.vnil "inner" (Some trace_main) ]}.

(** A store with two structs: [New("inner")] and a node around it. *)
Definition heap_wrapped : Heap.heap :=
  <[ 2%positive := Heap.mkCell (Heap.vref 1%positive) "middle" None ]> heap_inner.

(** * Properties *)

(** ** Strings *)

Lemma app_cons (c : ascii) (s t : string) : String c s +:+ t = String c (s +:+ t).
Proof. reflexivity. Qed.

Lemma app_empty_l (s : string) : "" +:+ s = s.
Proof. reflexivity. Qed.

Lemma app_empty_r (s : string) : s +:+ "" = s.
Proof. induction s as [|c s IH]; [done|]. by rewrite app_cons, IH. Qed.

Lemma app_assoc_string (s t u : string) : (s +:+ t) +:+ u = s +:+ t +:+ u.
Proof. induction s as [|c s IH]; [done|]. by rewrite !app_cons, IH. Qed.

Lemma length_app_string (s t : string) :
  String.length (s +:+ t) = (String.length s + String.length t)%nat.
Proof. induction s as [|c s IH]; [done|]. rewrite app_cons. simpl. by rewrite IH. Qed.

Lemma len_app (s t : string) : len (s +:+ t) = len s + len t.
Proof. unfold len. rewrite length_app_string. lia. Qed.

Lemma len_nonneg (s : string) : 0 ≤ len s.
Proof. unfold len. lia. Qed.


Lemma substring_all (s : string) : String.substring 0 (String.length s) s = s.
Proof. induction s as [|c s IH]; [done|]. simpl. by rewrite IH. Qed.

Lemma substring_app_l (p r : string) :
  String.substring 0 (String.length p) (p +:+ r) = p.
Proof.
  induction p as [|c p IH]; [by destruct r|]. rewrite app_cons. simpl. by rewrite IH.
Qed.

Lemma substring_app_r (p r : string) :
  String.substring (String.length p) (String.length r) (p +:+ r) = r.
Proof.
  induction p as [|c p IH]; [apply substring_all|]. by rewrite app_cons.
Qed.

(** [(p + r)[:len(p)]] and [(p + r)[len(p):]] *)
Lemma slice_to_app (p r : string) : slice_to (p +:+ r) (len p) = Ok p.
Proof.
  unfold slice_to, slice. rewrite bool_decide_true.
  - rewrite Z.sub_0_r. unfold len. rewrite Nat2Z.id. simpl (Z.to_nat 0).
    by rewrite substring_app_l.
  - rewrite len_app. pose proof (len_nonneg p). pose proof (len_nonneg r). lia.
Qed.

Lemma slice_from_app (p r : string) : slice_from (p +:+ r) (len p) = Ok r.
Proof.
  unfold slice_from, slice. rewrite bool_decide_true.
  - rewrite len_app. replace (len p + len r - len p) with (len r) by lia.
    unfold len. rewrite !Nat2Z.id. by rewrite substring_app_r.
  - rewrite len_app. pose proof (len_nonneg p). pose proof (len_nonneg r). lia.
Qed.

Lemma slice_from_0 (s : string) : slice_from s 0 = Ok s.
Proof. apply (slice_from_app "" s). Qed.

(** ** Path separators *)

Lemma strings_Count_app (s t : string) :
  strings_Count (s +:+ t) = (strings_Count s + strings_Count t)%nat.
Proof.
  induction s as [|c s IH]; [done|]. rewrite app_cons. simpl. rewrite IH. lia.
Qed.

Lemma strings_Count_sep : strings_Count sep_string = 1%nat.
Proof. reflexivity. Qed.

Lemma strings_LastIndex_bounds (s : string) :
  -1 ≤ strings_LastIndex s < len s.
Proof.
  induction s as [|c s IH]; [done|].
  unfold len in *. simpl strings_LastIndex. simpl String.length.
  destruct (Z.eqb_spec (strings_LastIndex s) (-1)); [destruct (c =? sep)%char|]; lia.
Qed.

(** [strings.LastIndex] is [-1] exactly on the strings without a separator, *)
Lemma strings_LastIndex_none (s : string) :
  strings_Count s = 0%nat → strings_LastIndex s = -1.
Proof.
  induction s as [|c s IH]; [done|]. simpl.
  destruct (Ascii.eqb c sep); [done|]. intros Hs. by rewrite IH.
Qed.

(** and otherwise the length of what stands before a separator that no
    other separator follows. *)
Lemma strings_LastIndex_some (s : string) :
  (0 < strings_Count s)%nat →
  ∃ p q, s = p +:+ sep_string +:+ q ∧ strings_Count q = 0%nat ∧
         strings_LastIndex s = len p.
Proof.
  induction s as [|c s IH]; [simpl; lia|]. simpl. intros Hs.
  destruct (decide (strings_Count s = 0)%nat) as [Hz|Hnz].
  - rewrite (strings_LastIndex_none s Hz). simpl.
    destruct (Ascii.eqb_spec c sep) as [->|]; [|simpl in Hs; lia].
    by exists "", s.
  - destruct IH as (p & q & -> & Hq & Hi); [lia|].
    exists (String c p), q. split; [done|]. split; [done|].
    rewrite Hi. pose proof (len_nonneg p).
    destruct (Z.eqb_spec (len p) (-1)); [lia|]. unfold len. simpl String.length. lia.
Qed.

(** ** [trimGOPATH] *)

(** With enough separators before [i], the loop stops before the
    [rounds]-th of them, counted from the end. *)
Lemma trimGOPATH_loop_enough (rounds : nat) : ∀ (p rest : string),
  (rounds ≤ strings_Count p)%nat →
  ∃ p' q, p = p' +:+ q ∧ strings_Count q = rounds ∧
          (match rounds with O => q = "" | S _ => ∃ q', q = sep_string +:+ q' end) ∧
          trimGOPATH_loop (p +:+ rest) rounds (len p) = Ok (len p').
Proof.
  induction rounds as [|rounds IH]; intros p rest Hp.
  - exists p, "". by rewrite app_empty_r.
  - destruct (strings_LastIndex_some p) as (p1 & q1 & -> & Hq1 & Hi); [lia|].
    simpl. rewrite slice_to_app. simpl. rewrite Hi.
    pose proof (len_nonneg p1).
    destruct (Z.eqb_spec (len p1) (-1)); [lia|].
    rewrite !strings_Count_app, strings_Count_sep, Hq1 in Hp.
    destruct (IH p1 (sep_string +:+ q1 +:+ rest)) as (p' & q & -> & Hq & Hshape & Hloop); [lia|].
    exists p', (q +:+ sep_string +:+ q1). split; [by rewrite !app_assoc_string|].
    split; [rewrite !strings_Count_app, strings_Count_sep; lia|].
    split.
    + destruct rounds; [subst q; by exists q1|].
      destruct Hshape as [q' ->]. exists (q' +:+ sep_string +:+ q1).
      by rewrite !app_assoc_string.
    + rewrite <-Hloop. f_equal. by rewrite !app_assoc_string.
Qed.

(** With too few, it stops at [-sepLen]. *)
Lemma trimGOPATH_loop_short (rounds : nat) : ∀ (p rest : string),
  (strings_Count p < rounds)%nat →
  trimGOPATH_loop (p +:+ rest) rounds (len p) = Ok (- sepLen).
Proof.
  induction rounds as [|rounds IH]; intros p rest Hp; [lia|].
  simpl. rewrite slice_to_app. simpl.
  destruct (decide (strings_Count p = 0)%nat) as [Hz|Hnz].
  - by rewrite (strings_LastIndex_none p Hz).
  - destruct (strings_LastIndex_some p) as (p1 & q1 & -> & Hq1 & Hi); [lia|].
    rewrite Hi. pose proof (len_nonneg p1).
    destruct (Z.eqb_spec (len p1) (-1)); [lia|].
    rewrite !strings_Count_app, strings_Count_sep, Hq1 in Hp.
    rewrite app_assoc_string. apply IH. lia.
Qed.

(** The two cases of [trimGOPATH]. *)
Lemma trimGOPATH_enough (name file : string) :
  (strings_Count name + 2 ≤ strings_Count file)%nat →
  ∃ p r, file = p +:+ sep_string +:+ r ∧
         strings_Count r = (strings_Count name + 1)%nat ∧
         trimGOPATH name file = Ok r.
Proof.
  intros Hn. unfold trimGOPATH.
  destruct (trimGOPATH_loop_enough (strings_Count name + 2) file "")
    as (p & q & Hfile & Hq & Hshape & Hloop); [done|].
  rewrite app_empty_r in Hloop. rewrite Hloop. simpl.
  replace (strings_Count name + 2)%nat with (S (strings_Count name + 1)) in Hshape by lia.
  destruct Hshape as [r ->]. exists p, r. split; [done|].
  rewrite strings_Count_app, strings_Count_sep in Hq. split; [lia|].
  subst file. rewrite <-app_assoc_string.
  replace (len p + sepLen) with (len (p +:+ sep_string)); [apply slice_from_app|].
  by rewrite len_app.
Qed.

Lemma trimGOPATH_short (name file : string) :
  (strings_Count file < strings_Count name + 2)%nat →
  trimGOPATH name file = Ok file.
Proof.
  intros Hn. unfold trimGOPATH.
  pose proof (trimGOPATH_loop_short (strings_Count name + 2) file "" Hn) as Hloop.
  rewrite app_empty_r in Hloop. rewrite Hloop. simpl. apply slice_from_0.
Qed.

Lemma sep_string_app (r : string) : sep_string +:+ r = String sep r.
Proof. reflexivity. Qed.

(** A path has one suffix that follows a separator and holds a given number
    of separators: "what follows the n-th separator from the end". *)
Lemma suffix_after_separator_unique (p1 : string) : ∀ (p2 r1 r2 : string),
  p1 +:+ sep_string +:+ r1 = p2 +:+ sep_string +:+ r2 →
  strings_Count r1 = strings_Count r2 →
  p1 = p2 ∧ r1 = r2.
Proof.
  induction p1 as [|c p1 IH]; intros [|c2 p2] r1 r2 Heq Hcount;
    rewrite ?app_empty_l, ?app_cons, ?sep_string_app in Heq.
  - by simplify_eq.
  - injection Heq as <- ->. rewrite strings_Count_app in Hcount.
    cbn [strings_Count] in Hcount. rewrite Ascii.eqb_refl in Hcount. lia.
  - injection Heq as -> <-. rewrite strings_Count_app in Hcount.
    cbn [strings_Count] in Hcount. rewrite Ascii.eqb_refl in Hcount. lia.
  - injection Heq as -> Heq. by destruct (IH p2 r1 r2 Heq Hcount) as [-> ->].
Qed.

(** C4. A function name with [s] separators and a file path with at least
    [s + 2]: [trimGOPATH] returns what follows the [(s + 2)]-th separator of the
    path counted from the end, that is the suffix [r] of the path that has a
    separator just before it and [s + 1] separators in it.  A path with fewer
    separators is returned as it is.  Neither case panics. *)
Theorem trimGOPATH_spec (name file : string) :
  ((strings_Count name + 2 ≤ strings_Count file)%nat →
     ∃ p r, file = p +:+ sep_string +:+ r ∧
            strings_Count r = (strings_Count name + 1)%nat ∧
            trimGOPATH name file = Ok r) ∧
  ((strings_Count file < strings_Count name + 2)%nat →
     trimGOPATH name file = Ok file).
Proof. split; [apply trimGOPATH_enough|apply trimGOPATH_short]. Qed.

Lemma trimGOPATH_spec_witness :
  (∃ p r, "/home/user/src/pkg/sub/file.go" = p +:+ sep_string +:+ r ∧
          strings_Count r = 2%nat ∧
          trimGOPATH "pkg/sub.Type.Method" "/home/user/src/pkg/sub/file.go" = Ok r) ∧
  trimGOPATH "main.main" "main.go" = Ok "main.go".
Proof.
  split.
  - apply (proj1 (trimGOPATH_spec "pkg/sub.Type.Method" "/home/user/src/pkg/sub/file.go")).
    vm_compute. lia.
  - apply (proj2 (trimGOPATH_spec "main.main" "main.go")). vm_compute. lia.
Defined.

(** The documented example of the source (part_003, lines 94-100). *)
Example trimGOPATH_documented :
  trimGOPATH "pkg/sub.Type.Method" "/home/user/src/pkg/sub/file.go"
  = Ok "pkg/sub/file.go".
Proof. reflexivity. Qed.

(** The frame the test expects (part_004, lines 47-52). *)
Example trimGOPATH_tested :
  trimGOPATH "github.com/1gm/errx_test.genError"
    "/home/george/go/src/github.com/1gm/errx/stack_test.go"
  = Ok "github.com/1gm/errx/stack_test.go".
Proof. reflexivity. Qed.

(** [trimGOPATH] never panics. *)
Lemma trimGOPATH_total (name file : string) : ∃ r, trimGOPATH name file = Ok r.
Proof.
  destruct (decide (strings_Count name + 2 ≤ strings_Count file)%nat) as [H|H].
  - destruct (trimGOPATH_enough name file H) as (p & r & _ & _ & Hr). by exists r.
  - exists file. apply trimGOPATH_short. lia.
Qed.

(** ** The capture *)

Lemma getStack_loop_total (pcs : list Func) : ∀ st,
  ∃ fs, Forall2 captures pcs fs ∧
        getStack_loop pcs st = Ok (match pcs with [] => st | _ => Some (default [] st ++ fs) end).
Proof.
  induction pcs as [|pc pcs IH]; intros st; [by exists []|].
  simpl. destruct (trimGOPATH_total (Name pc) (File pc)) as [r Hr]. rewrite Hr. simpl.
  destruct (IH (append_frame st (mkStackFrame (Name pc) (File pc) r (FileLine pc))))
    as (fs & Hfs & ->).
  exists (mkStackFrame (Name pc) (File pc) r (FileLine pc) :: fs).
  split; [by constructor|]. f_equal.
  destruct pcs; simpl in *.
  - by apply Forall2_nil_inv_l in Hfs as ->.
  - by rewrite <-app_assoc.
Qed.

Lemma length_runtime_Callers (skip : Z) (goroutine : list Func) :
  length (runtime_Callers skip goroutine)
  = (maxStackDepth `min` (length goroutine - Z.to_nat skip))%nat.
Proof. unfold runtime_Callers. by rewrite length_take, length_drop. Qed.

(** The capture of part_003 never panics; its trace is nil exactly when
    [runtime.Callers] found no frame, which is when the goroutine's stack has
    no frame past the skipped ones. *)
Lemma Stack_getStack_total (rt : Runtime) :
  ∃ st, Stack.getStack rt = Ok st ∧
        (st ≠ None ↔ (Z.to_nat (callerSkipLevel rt) < length (goroutine rt))%nat).
Proof.
  unfold Stack.getStack.
  destruct (getStack_loop_total (runtime_Callers (callerSkipLevel rt) (goroutine rt)) None)
    as (fs & _ & ->).
  eexists. split; [done|].
  pose proof (length_runtime_Callers (callerSkipLevel rt) (goroutine rt)) as Hl.
  unfold maxStackDepth in Hl.
  destruct (runtime_Callers _ _); cbn [length] in Hl.
  - split; [done|intros ?; exfalso; lia].
  - split; [intros _; lia|done].
Qed.

(** At the skip level the package starts with, the trace begins with the
    frame below the four frames of the capture: the caller of [New] or
    [Wrap]. *)
Lemma Stack_getStack_caller (rt : Runtime) (caller : Func) :
  callerSkipLevel rt = Stack.callerSkipLevel_init →
  goroutine rt !! 4%nat = Some caller →
  ∃ f fs, captures caller f ∧ Stack.getStack rt = Ok (Some (f :: fs)).
Proof.
  intros Hlevel Hcaller. unfold Stack.getStack. rewrite Hlevel.
  change Stack.callerSkipLevel_init with 4.
  destruct (getStack_loop_total (runtime_Callers 4 (goroutine rt)) None) as (fs & Hfs & ->).
  assert (runtime_Callers 4 (goroutine rt) !! 0%nat = Some caller) as Hhead.
  { unfold runtime_Callers, maxStackDepth.
    change (Z.to_nat 4) with 4%nat.
    rewrite lookup_take_lt, lookup_drop by lia. by rewrite Nat.add_0_r. }
  destruct (runtime_Callers 4 (goroutine rt)) as [|pc pcs]; [done|].
  cbn in Hhead. simplify_eq.
  apply Forall2_cons_inv_l in Hfs as (f & fs' & Hf & _ & ->). by exists f, fs'.
Qed.

(** The capture of part_002 never panics and never returns a nil pointer. *)
Lemma StackPtr_getStack_total (rt : Runtime) :
  ∃ fs, StackPtr.getStack rt = Ok (Some fs).
Proof.
  unfold StackPtr.getStack.
  destruct (getStack_loop_total
              (runtime_Callers (int_wrap (4 + callerSkipLevel rt)) (goroutine rt)) (Some []))
    as (fs & Hlen & ->).
  destruct (runtime_Callers _ _); eauto.
Qed.

(** ** The chain: induction and the message-only walk *)

(** Induction along [Inner]. *)
Lemma Error_inner_ind (P : Error → Prop) :
  (∀ i m st, (∀ inner, i = ref inner → P inner) → P (mkError i m st)) →
  ∀ e, P e.
Proof.
  intros step.
  apply (Error_chain_ind P (λ err, ∀ inner, err = ref inner → P inner));
    [auto|congruence..].
Qed.



(** The buffer after the first statement of every renderer is the message. *)
Lemma write_message (m sp : string) :
  (if negb (is_empty m) then WriteString (pad "" sp) m else "") = m.
Proof. by destruct m. Qed.

(** Without [printStack], [error] is the message, then the separator unless
    the message is empty, then the rendering of the inner error, unless that
    is nil or a zero node.  The depth plays no part. *)
Lemma Fmt_message_only (e : Error) (depth : Z) (sepr : string) :
  Fmt.Error_error e depth sepr false =
  match Inner e with
  | nil_error => Ok (Message e)
  | nil_ptr => Panic nil_dereference
  | ref inner =>
      if Error_isZero inner then Ok (Message e)
      else s ← Fmt.Error_error inner (depth + 1) sepr false;
           Ok (pad (Message e) sepr +:+ s)
  | foreign msg => Ok (pad (Message e) sepr +:+ msg)
  end.
Proof.
  destruct e as [i m st]. cbn [Fmt.Error_error Inner Message StackTrace].
  rewrite write_message, andb_false_r.
  destruct i as [| |inner|msg]; cbn; try done.
  destruct (Error_isZero inner); cbn; [done|].
  by destruct (Fmt.Error_error inner (depth + 1) sepr false).
Qed.

(** [message] of part_001 is [error] of part_000 without [printStack]. *)
Lemma Print_message_Fmt (e : Error) : ∀ depth,
  Print.Error_message e depth = Fmt.Error_error e depth ": " false.
Proof.
  induction e as [i m st IH] using Error_inner_ind. intros depth.
  rewrite Fmt_message_only. cbn [Print.Error_message Inner Message StackTrace].
  rewrite write_message.
  destruct i as [| |inner|msg]; cbn; try done.
  destruct (Error_isZero inner); cbn; [done|].
  by rewrite (IH inner eq_refl).
Qed.

(** On a chain without nil pointers the message-only walk returns, and returns
    the text of the links. *)
Lemma Fmt_message_only_links (e : Error) : ∀ depth,
  no_nil_ptr e = true →
  Fmt.Error_error e depth ": " false = Ok (chain_text (links e)).
Proof.
  induction e as [i m st IH] using Error_inner_ind. intros depth Hsound.
  rewrite Fmt_message_only. cbn [links Inner Message].
  destruct i as [| |inner|msg]; cbn in *; try done.
  destruct (Error_isZero inner); [done|].
  rewrite (IH inner eq_refl (depth + 1) Hsound). cbn.
  by destruct inner as [[] ? ?].
Qed.




(** ** [New] and [Wrap] *)

Lemma bind_Ok {A B : Type} (a : A) (f : A → result B) : Ok a ≫= f = f a.
Proof. reflexivity. Qed.

Lemma Fmt_New_ok (rt : Runtime) (message : string) :
  ∃ st, Stack.getStack rt = Ok st ∧
        Fmt.New rt message = Ok (ref (mkError nil_error message st)).
Proof.
  destruct (Stack_getStack_total rt) as (st & Hst & _). exists st.
  split; [done|]. unfold Fmt.New, newErr. by rewrite Hst.
Qed.




(** ** Empty messages *)






(** ** Traces and the message-only walk *)

Lemma erase_traces_inv (e1 e2 : Error) :
  erase_traces e1 = erase_traces e2 →
  Message e1 = Message e2 ∧
  match Inner e1, Inner e2 with
  | nil_error, nil_error => True
  | nil_ptr, nil_ptr => True
  | ref i1, ref i2 => erase_traces i1 = erase_traces i2
  | foreign m1, foreign m2 => m1 = m2
  | _, _ => False
  end.
Proof.
  destruct e1 as [i1 m1 st1], e2 as [i2 m2 st2]. cbn [erase_traces Inner Message].
  intros [= Hi ->]. split; [done|].
  destruct i1, i2; simplify_eq/=; done.
Qed.

Lemma Fmt_message_only_same (e1 : Error) : ∀ (e2 : Error) (d : Z),
  erase_traces e1 = erase_traces e2 →
  same_zeros e1 e2 →
  Fmt.Error_error e1 d ": " false = Fmt.Error_error e2 d ": " false.
Proof.
  induction e1 as [i1 m1 st1 IH] using Error_inner_ind.
  intros [i2 m2 st2] d Herase Hzeros. rewrite !Fmt_message_only.
  apply erase_traces_inv in Herase as [Hm Hi]. cbn [Inner Message] in *. subst m2.
  destruct i1 as [| |inner1|msg1], i2 as [| |inner2|msg2]; try done.
  - cbn in Hzeros. destruct Hzeros as [-> Hzeros].
    destruct (Error_isZero inner2); [done|].
    by rewrite (IH inner1 eq_refl inner2 (d + 1) Hi Hzeros).
  - by subst.
Qed.

(** C9, as the code has it.  Two chains with the same messages and inner
    errors all the way down, whose inner nodes are zero at the same places,
    have the same [Error()], in part_000 and in part_001, whatever their
    traces hold. *)
Theorem message_only_ignores_traces (e1 e2 : Error) :
  erase_traces e1 = erase_traces e2 →
  same_zeros e1 e2 →
  Fmt.Error_Error e1 = Fmt.Error_Error e2 ∧
  Print.Error_Error e1 = Print.Error_Error e2.
Proof.
  intros Herase Hzeros. unfold Print.Error_Error. rewrite !Print_message_Fmt.
  unfold Fmt.Error_Error. by rewrite (Fmt_message_only_same e1 e2 0).
Qed.

Lemma message_only_ignores_traces_witness :
  Fmt.Error_Error (mkError (ref (mkError nil_error "inner" (Some trace_main))) "outer" None)
  = Fmt.Error_Error (mkError (ref (mkError nil_error "inner" None)) "outer" (Some []))
  ∧
  Print.Error_Error (mkError (ref (mkError nil_error "inner" (Some trace_main))) "outer" None)
  = Print.Error_Error (mkError (ref (mkError nil_error "inner" None)) "outer" (Some [])).
Proof.
  apply message_only_ignores_traces.
  - reflexivity.
  - simpl. split; reflexivity || exact I.
Defined.

(** C9 as stated fails: [wrapped_zero] and [wrapped_empty] have the same
    messages and inner errors and differ in one trace; [Error()] is ["a"] for
    the first and ["a: "] for the second, in both revisions. *)
Lemma trace_changes_message_only_counterexample :
  erase_traces wrapped_zero = erase_traces wrapped_empty ∧
  Fmt.Error_Error wrapped_zero = Ok "a" ∧
  Fmt.Error_Error wrapped_empty = Ok "a: " ∧
  Fmt.Error_Error wrapped_zero ≠ Fmt.Error_Error wrapped_empty ∧
  Print.Error_Error wrapped_zero = Ok "a" ∧
  Print.Error_Error wrapped_empty = Ok "a: ".
Proof. repeat split. discriminate. Qed.

(** ** The default stringification *)

(** C3 on error.go.  There [Error()] is [error(0)], which prints the trace of
    every node that has one, and [New] always has one: [Error()] of
    [New(message)] is the message, a newline and the frames.  The test
    [Test_New] (error_test.go, lines 17-22) expects ["My error!"]. *)
Theorem ErrorGo_Error_prints_stack :
  (∀ (rt : Runtime) (message : string),
     ∃ fs, (e ← ErrorGo.New rt message; error_Error ErrorGo.Error_Error e)
           = Ok ((message +:+ newline) +:+ frames_String fs)) ∧
  (e ← ErrorGo.New rt_main_ptr "My error!"; error_Error ErrorGo.Error_Error e)
  = Ok ("My error!" +:+ newline +:+
        "  at main.main(examples/main.go:13)" +:+ newline +:+
        "  at runtime.main(runtime/proc.go:207)" +:+ newline +:+
        "  at runtime.goexit(runtime/asm_amd64.s:2362)" +:+ newline).
Proof.
  split; [|reflexivity].
  intros rt message. destruct (StackPtr_getStack_total rt) as [fs Hfs]. exists fs.
  unfold ErrorGo.New, newErr. rewrite Hfs, !bind_Ok. cbn [error_Error].
  unfold ErrorGo.Error_Error. cbn [ErrorGo.Error_error Inner Message StackTrace].
  by rewrite write_message.
Qed.

Lemma erase_traces_drop_frames (e : Error) :
  erase_traces e = erase_traces (drop_frames e).
Proof.
  induction e as [i m st IH] using Error_inner_ind. cbn [erase_traces drop_frames Inner Message].
  destruct i as [| |inner|msg]; try done. by rewrite (IH inner eq_refl).
Qed.

Lemma Error_isZero_drop_frames (e : Error) :
  Error_isZero (drop_frames e) = Error_isZero e.
Proof. by destruct e as [[] ? []]. Qed.

Lemma same_zeros_drop_frames (e : Error) : same_zeros e (drop_frames e).
Proof.
  induction e as [i m st IH] using Error_inner_ind. cbn [same_zeros drop_frames Inner].
  destruct i as [| |inner|msg]; try done.
  split; [by rewrite Error_isZero_drop_frames|by apply IH].
Qed.

(** In part_000 [Error()] never prints a frame: it is [Error()] of the chain
    with the frames dropped, and on a chain without nil pointers the text of
    the links, made of the links and of [": "] alone. *)
Theorem Fmt_Error_message_only :
  (∀ e : Error, Fmt.Error_Error e = Fmt.Error_Error (drop_frames e)) ∧
  (∀ e : Error, no_nil_ptr e = true → Fmt.Error_Error e = Ok (chain_text (links e))).
Proof.
  split.
  - intros e. apply Fmt_message_only_same;
      [apply erase_traces_drop_frames|apply same_zeros_drop_frames].
  - intros e He. by apply Fmt_message_only_links.
Qed.

Lemma Fmt_Error_message_only_witness :
  Fmt.Error_Error wrapped_empty = Ok (chain_text (links wrapped_empty)).
Proof. apply (proj2 Fmt_Error_message_only). reflexivity. Defined.

(** ** Which [Wrap] captures a trace *)

(** C2, as the code has it.  [Wrap] of a [*Error] that is not nil copies the
    struct and captures nothing: the trace of the new node is nil.  [Wrap] of
    a foreign error stores what [getStack] returns, and that is not nil
    exactly when the goroutine's stack has a frame past the skipped ones.  At
    the skip level the package starts with it begins with the frame of the
    caller of [Wrap], the one below the four frames of the capture. *)
Theorem Wrap_capture :
  (∀ (rt : Runtime) (inner : Error) (message : string),
     Fmt.Wrap rt (ref inner) message = Ok (ref (mkError (ref inner) message None))) ∧
  (∀ (rt : Runtime) (msg message : string),
     ∃ st, Stack.getStack rt = Ok st ∧
           Fmt.Wrap rt (foreign msg) message = Ok (ref (mkError (foreign msg) message st)) ∧
           (st ≠ None ↔ (Z.to_nat (callerSkipLevel rt) < length (goroutine rt))%nat)) ∧
  (∀ (rt : Runtime) (caller : Func) (msg message : string),
     callerSkipLevel rt = Stack.callerSkipLevel_init →
     goroutine rt !! 4%nat = Some caller →
     ∃ f fs, captures caller f ∧
             Fmt.Wrap rt (foreign msg) message
             = Ok (ref (mkError (foreign msg) message (Some (f :: fs))))).
Proof.
  split; [done|]. split.
  - intros rt msg message.
    destruct (Stack_getStack_total rt) as (st & Hst & Hnil). exists st.
    split; [done|]. split; [|done]. unfold Fmt.Wrap, wrapErr. by rewrite Hst.
  - intros rt caller msg message Hlevel Hcaller.
    destruct (Stack_getStack_caller rt caller Hlevel Hcaller) as (f & fs & Hf & Hst).
    exists f, fs. split; [done|]. unfold Fmt.Wrap, wrapErr. by rewrite Hst.
Qed.

Lemma Wrap_capture_witness :
  ∃ f fs, captures (mkFunc "main.main" "/home/user/go/src/examples/main.go" 13) f ∧
          Fmt.Wrap rt_main (foreign "boom") "outer"
          = Ok (ref (mkError (foreign "boom") "outer" (Some (f :: fs)))).
Proof.
  apply (proj2 (proj2 Wrap_capture) rt_main _ "boom" "outer"); reflexivity.
Defined.

(** C2 as stated fails: after [AdjustCallerSkipLevel(36)] the capture in
    [main.main] finds no frame, and [Wrap] of a foreign error returns a node
    whose trace is nil. *)
Lemma Wrap_foreign_nil_trace_counterexample :
  Stack.AdjustCallerSkipLevel 36 Stack.callerSkipLevel_init = 40 ∧
  Fmt.Wrap rt_deep (foreign "boom") "outer"
  = Ok (ref (mkError (foreign "boom") "outer" None)).
Proof. split; reflexivity. Qed.

(** In the older revisions the capture is never nil (a pointer to a fresh
    struct), and [Wrap] of a foreign error always has a trace. *)
Lemma Print_Wrap_foreign (rt : Runtime) (msg message : string) :
  ∃ fs, Print.Wrap rt (foreign msg) message
        = Ok (ref (mkError (foreign msg) message (Some fs))).
Proof.
  destruct (StackPtr_getStack_total rt) as [fs Hfs]. exists fs.
  unfold Print.Wrap, wrapErr. by rewrite Hfs.
Qed.

(** ** Panics *)

(** C8 fails on a nil [*Error] held in an [error]: [Wrap] dereferences it
    ([copied := *inner], part_000 line 191), and so does every renderer on a
    chain that holds one ([inner.isZero()], line 119). *)
Theorem Wrap_nil_pointer_panics :
  (∀ (rt : Runtime) (message : string),
     Fmt.Wrap rt nil_ptr message = Panic nil_dereference) ∧
  (∀ (message : string) (st : Trace) (printStack : bool),
     Fmt.Error_error (mkError nil_ptr message st) 0 ": " printStack
     = Panic nil_dereference).
Proof. split; [done|]. intros message st printStack. cbn. by destruct message. Qed.

(** What does hold: [New] never panics; [Wrap] panics on a nil [*Error] only,
    and on the nil interface it returns a node with a nil inner error and the
    trace it captured; both renderers return on every chain without nil
    pointers. *)
Theorem New_Wrap_total :
  (∀ (rt : Runtime) (message : string),
     ∃ st, Stack.getStack rt = Ok st ∧
           Fmt.New rt message = Ok (ref (mkError nil_error message st))) ∧
  (∀ (rt : Runtime) (message : string),
     ∃ st, Stack.getStack rt = Ok st ∧
           Fmt.Wrap rt nil_error message = Ok (ref (mkError nil_error message st))) ∧
  (∀ (rt : Runtime) (err : error) (message : string),
     err ≠ nil_ptr → ∃ e, Fmt.Wrap rt err message = Ok (ref e)).
Proof.
  split; [apply Fmt_New_ok|]. split.
  - intros rt message. destruct (Stack_getStack_total rt) as (st & Hst & _).
    exists st. split; [done|]. unfold Fmt.Wrap, wrapErr. by rewrite Hst.
  - intros rt err message Herr. unfold Fmt.Wrap, wrapErr.
    destruct (Stack_getStack_total rt) as (st & -> & _).
    destruct err; [eauto|done|eauto..].
Qed.

Lemma New_Wrap_total_witness :
  ∃ e, Fmt.Wrap rt_main (foreign "boom") "outer" = Ok (ref e).
Proof. apply (proj2 (proj2 New_Wrap_total)). discriminate. Defined.

Lemma len_repeat_string (s : string) (n : nat) :
  len (repeat_string s n) = Z.of_nat n * len s.
Proof.
  induction n as [|n IH]; [done|]. cbn [repeat_string]. rewrite len_app, IH. lia.
Qed.

(** Printing a trace does not panic at a depth that is not negative, when the
    repeated string has two bytes or more (it has two at every call). *)
Lemma write_stack_total (b sepr : string) (depth : Z) (st : Trace) :
  0 ≤ depth → 2 ≤ len sepr → ∃ s, write_stack b sepr depth st = Ok s.
Proof.
  intros Hd Hsepr. unfold write_stack. case_bool_decide; [|eauto].
  unfold strings_Repeat. rewrite bool_decide_false by lia. rewrite bind_Ok.
  unfold slice_from, slice. rewrite bool_decide_true; [rewrite bind_Ok; eauto|].
  rewrite len_repeat_string. nia.
Qed.

Lemma Fmt_error_total (e : Error) : ∀ (depth : Z) (printStack : bool),
  0 ≤ depth → no_nil_ptr e = true →
  ∃ s, Fmt.Error_error e depth ": " printStack = Ok s.
Proof.
  induction e as [i m st IH] using Error_inner_ind.
  intros depth printStack Hd Hsound.
  cbn [Fmt.Error_error Inner Message StackTrace]. rewrite write_message.
  assert (∀ b, ∃ s, (if negb (is_nil_trace st) && printStack
                     then write_stack b ": " depth st else Ok b) = Ok s) as Htail.
  { intros b. destruct (negb (is_nil_trace st) && printStack); [|eauto].
    by apply write_stack_total. }
  destruct i as [| |inner|msg]; cbn in Hsound |- *; [apply Htail|done| |apply Htail].
  destruct (Error_isZero inner); cbn; [apply Htail|].
  destruct (IH inner eq_refl (depth + 1) printStack) as [s ->]; [lia|done|].
  cbn. apply Htail.
Qed.

(** On a chain without nil pointers [Error()] returns, and [Format] returns
    for every verb, with the flag [-] and without: neither way of rendering
    panics. *)
Theorem rendering_total (e : Error) :
  no_nil_ptr e = true →
  (∃ s, Fmt.Error_Error e = Ok s) ∧
  (∀ (minus : bool) (c : ascii), ∃ s, Fmt.Error_Format e minus c = Ok s).
Proof.
  intros Hsound. split; [by apply Fmt_error_total|].
  intros minus c. unfold Fmt.Error_Format.
  destruct (_ || _); [|eauto]. destruct minus; by apply Fmt_error_total.
Qed.

Lemma rendering_total_witness :
  (∃ s, Fmt.Error_Error wrapped_empty = Ok s) ∧
  (∀ (minus : bool) (c : ascii), ∃ s, Fmt.Error_Format wrapped_empty minus c = Ok s).
Proof. apply rendering_total. reflexivity. Defined.

(** The six cases of [Test_Wrapped] (error_test.go, lines 51-123): [Error()]
    of [Wrap(inner, outerMessage)], for [inner] made by [New] and by
    [errors.New]. *)
Example Test_Wrapped_cases :
  let wrapped_New (innerMessage outerMessage : string) :=
    inner ← Fmt.New rt_main innerMessage;
    e ← Fmt.Wrap rt_main inner outerMessage;
    error_Error Fmt.Error_Error e in
  let wrapped_foreign (innerMessage outerMessage : string) :=
    e ← Fmt.Wrap rt_main (foreign innerMessage) outerMessage;
    error_Error Fmt.Error_Error e in
  wrapped_New "inner" "outer" = Ok "outer: inner" ∧
  wrapped_New "zxcvzxcv" "" = Ok "zxcvzxcv" ∧
  wrapped_New "" "" = Ok "" ∧
  wrapped_foreign "inner" "outer" = Ok "outer: inner" ∧
  wrapped_foreign "zxcvzxcv" "" = Ok "zxcvzxcv" ∧
  wrapped_foreign "" "" = Ok "".
Proof. repeat split. Qed.

(** The example of the documentation (README.md, "Print with stack trace" and
    "Print without stack trace"): [Wrap(Wrap(errors.New("inner"), "middle"),
    "outer")] in [main.main], printed with [%v] and with [%-v]. *)
Example Format_documented :
  (middle ← Fmt.Wrap rt_main (foreign "inner") "middle";
   outer ← Fmt.Wrap rt_main middle "outer";
   with_stack ← error_Error (λ e, Fmt.Error_Format e false "v") outer;
   without ← error_Error (λ e, Fmt.Error_Format e true "v") outer;
   Ok (with_stack, without))
  = Ok ("outer: middle: inner" +:+ newline +:+
        "  at main.main(examples/main.go:13)" +:+ newline +:+
        "  at runtime.main(runtime/proc.go:207)" +:+ newline +:+
        "  at runtime.goexit(runtime/asm_amd64.s:2362)" +:+ newline,
        "outer: middle: inner").
Proof. reflexivity. Qed.

(** ** The printing helpers of part_001 *)

(** C10. On the nil interface both helpers return the empty string; on an
    error that is not a [*Error] both return what its [Error()] returns. *)
Theorem Print_helpers_nil_and_foreign :
  Print.PrintMessages nil_error = Ok "" ∧
  Print.PrintWithStack nil_error = Ok "" ∧
  (∀ msg : string, Print.PrintMessages (foreign msg) = Ok (error_Error_foreign msg)) ∧
  (∀ msg : string, Print.PrintWithStack (foreign msg) = Ok (error_Error_foreign msg)).
Proof. repeat split. Qed.

(** ** The skip level *)

Lemma AdjustCallerSkipLevel_min (amt level : Z) :
  Stack.minCallerSkipLevel ≤ Stack.AdjustCallerSkipLevel amt level.
Proof. unfold Stack.AdjustCallerSkipLevel. case_bool_decide; lia. Qed.

(** C7. The skip level the package starts with is the minimum, and after any
    calls of [AdjustCallerSkipLevel], with any amounts, the stored level,
    which is the one [getStack] passes to [runtime.Callers], is not below
    it. *)
Theorem skip_level_never_below_minimum (amts : list Z) :
  Stack.minCallerSkipLevel ≤
  foldl (λ level amt, Stack.AdjustCallerSkipLevel amt level)
    Stack.callerSkipLevel_init amts.
Proof.
  induction amts as [|amt amts IH] using rev_ind; [done|].
  rewrite foldl_app. cbn [foldl]. apply AdjustCallerSkipLevel_min.
Qed.

(** The older [SetCallerSkipLevel] is another operation: it stores the level
    it is given, and [getStack] adds it to the four frames of the package, so
    that a negative level leaves frames of the package in the trace. *)
Remark SetCallerSkipLevel_not_clamped :
  int_wrap (4 + StackPtr.SetCallerSkipLevel (-3) StackPtr.callerSkipLevel_init) = 1.
Proof. reflexivity. Qed.

(** ** The store: what [Wrap] copies and what a later assignment can reach *)

Lemma load_S (fuel : nat) (h : Heap.heap) (l : Heap.loc) :
  Heap.load (S fuel) h (Heap.vref l) =
  c ← h !! l; i ← Heap.load fuel h (Heap.cInner c);
  Some (ref (mkError i (Heap.cMessage c) (Heap.cStackTrace c))).
Proof. reflexivity. Qed.

Lemma load_vref_inv (fuel : nat) (h : Heap.heap) (l : Heap.loc) (t : error) :
  Heap.load fuel h (Heap.vref l) = Some t →
  ∃ fuel' c i, fuel = S fuel' ∧ h !! l = Some c ∧
               Heap.load fuel' h (Heap.cInner c) = Some i ∧
               t = ref (mkError i (Heap.cMessage c) (Heap.cStackTrace c)).
Proof.
  destruct fuel as [|fuel']; [done|]. rewrite load_S. intros Hload.
  destruct (h !! l) as [c|]; [|done]. cbn in Hload.
  destruct (Heap.load fuel' h (Heap.cInner c)) as [i|] eqn:Hi; [|done].
  cbn in Hload. exists fuel', c, i. by simplify_eq.
Qed.

(** More fuel reads the same chain. *)
Lemma load_mono (h : Heap.heap) (fuel : nat) : ∀ (fuel' : nat) (v : Heap.value) (t : error),
  (fuel ≤ fuel')%nat → Heap.load fuel h v = Some t → Heap.load fuel' h v = Some t.
Proof.
  induction fuel as [|fuel IH]; intros fuel' v t Hle Hload.
  - destruct v; by destruct fuel'.
  - destruct v as [| |l|msg]; [by destruct fuel'..| |by destruct fuel'].
    apply load_vref_inv in Hload as (f & c & i & [= <-] & Hc & Hi & ->).
    destruct fuel' as [|fuel']; [lia|]. rewrite load_S, Hc. cbn.
    rewrite (IH fuel' _ i) by (done || lia). done.
Qed.

(** A chain that is read without reaching the struct at [c] is read the same
    after an assignment to the fields of [*c]. *)
Lemma load_frame_unread (h : Heap.heap) (c : Heap.loc) (cell' : Heap.cell) (fuel : nat) :
  ∀ (v : Heap.value) (t : error),
  Heap.load fuel h (Heap.vref c) = None →
  Heap.load fuel h v = Some t →
  Heap.load fuel (Heap.assign h c cell') v = Some t.
Proof.
  induction fuel as [|fuel IH]; intros v t Hc Hload.
  - by destruct v.
  - destruct v as [| |l|msg]; try done.
    destruct (decide (l = c)) as [->|Hne]; [congruence|].
    apply load_vref_inv in Hload as (f & cl & i & [= <-] & Hl & Hi & ->).
    rewrite load_S. unfold Heap.assign. rewrite lookup_insert_ne, Hl by done. cbn.
    rewrite (IH _ i); [done| |done].
    destruct (Heap.load fuel h (Heap.vref c)) as [tc|] eqn:Hfc; [|done].
    by rewrite (load_mono h fuel (S fuel) _ tc) in Hc by (done || lia).
Qed.

(** The chain below the struct at [c] that is read at all is read without
    reaching [c] again, and so is read the same after an assignment to
    [*c]. *)
Lemma load_frame_inner (h : Heap.heap) (c : Heap.loc) (cell cell' : Heap.cell) :
  h !! c = Some cell →
  ∀ (fuel : nat) (t : error),
  Heap.load fuel h (Heap.cInner cell) = Some t →
  Heap.load fuel (Heap.assign h c cell') (Heap.cInner cell) = Some t.
Proof.
  intros Hc fuel. induction (lt_wf fuel) as [fuel _ IH]. intros t Hload.
  destruct (Heap.load fuel h (Heap.vref c)) as [tc|] eqn:Hfc.
  - apply load_vref_inv in Hfc as (f & cl & i & -> & Hl & Hi & _).
    simplify_eq. 
    assert (i = t) as ->.
    { apply (load_mono h f (S f)) in Hi; [congruence|lia]. }
    apply (load_mono _ f (S f)); [lia|]. apply IH; [lia|done].
  - by apply load_frame_unread.
Qed.

Lemma alloc_unused (h : Heap.heap) (c : Heap.cell) :
  h !! (Heap.alloc h c).2 = None ∧ (Heap.alloc h c).1 = <[(Heap.alloc h c).2 := c]> h.
Proof.
  split; [|done]. apply not_elem_of_dom. cbn. apply is_fresh.
Qed.

Lemma load_vref_intro (fuel : nat) (h : Heap.heap) (l : Heap.loc) (c : Heap.cell)
    (i : error) :
  h !! l = Some c →
  Heap.load fuel h (Heap.cInner c) = Some i →
  Heap.load (S fuel) h (Heap.vref l)
  = Some (ref (mkError i (Heap.cMessage c) (Heap.cStackTrace c))).
Proof. intros Hl Hi. rewrite load_S, Hl. cbn. by rewrite Hi. Qed.

Lemma lookup_assign_ne (h : Heap.heap) (c l : Heap.loc) (cell' : Heap.cell) :
  l ≠ c → Heap.assign h c cell' !! l = h !! l.
Proof. intros Hne. unfold Heap.assign. by rewrite lookup_insert_ne. Qed.

(** What [wrapErr] does to the store when the cause is a [*Error] that points
    to a struct. *)
Lemma Heap_wrapErr_ref (getStack : result Trace) (h : Heap.heap) (c : Heap.loc)
    (cell : Heap.cell) (message : string) :
  h !! c = Some cell →
  ∃ (e copied : Heap.loc),
    e ≠ c ∧ copied ≠ c ∧ e ≠ copied ∧ h !! e = None ∧ h !! copied = None ∧
    Heap.wrapErr getStack h (Heap.vref c) message
    = Ok (<[e := Heap.mkCell (Heap.vref copied) message None]> (<[copied := cell]> h),
          Heap.vref e).
Proof.
  intros Hc. unfold Heap.wrapErr.
  destruct (alloc_unused h (Heap.mkCell Heap.vnil message None)) as [He Hh1].
  destruct (Heap.alloc h _) as [h1 e] eqn:Halloc1. cbn in He, Hh1. subst h1.
  assert (e ≠ c) as Hec by congruence.
  unfold Heap.deref. rewrite lookup_insert_ne, Hc by done. rewrite bind_Ok.
  destruct (alloc_unused (<[e:=Heap.mkCell Heap.vnil message None]> h) cell) as [Hcopied Hh2].
  destruct (Heap.alloc (<[e:=_]> h) cell) as [h2 copied] eqn:Halloc2.
  cbn in Hcopied, Hh2. subst h2.
  assert (e ≠ copied) as Hne by (intros ->; by rewrite lookup_insert_eq in Hcopied).
  rewrite lookup_insert_ne in Hcopied by done.
  assert (copied ≠ c) as Hcc by congruence.
  exists e, copied. repeat (split; [done|]).
  unfold Heap.assign. do 2 f_equal.
  apply map_eq. intros l.
  destruct (decide (l = e)) as [->|?]; [by rewrite !lookup_insert_eq|].
  rewrite !(lookup_insert_ne _ e) by done.
  destruct (decide (l = copied)) as [->|?]; [by rewrite !lookup_insert_eq|].
  by rewrite !lookup_insert_ne.
Qed.

(** C5. [Wrap] of a [*Error] that points to a struct allocates two structs:
    the new node, and a copy of the cause that the new node's [Inner] points
    to.  The copy holds the three field values of the cause as they are, its
    [Inner] and its trace not cloned, and no other struct changes.  After any
    assignment to the fields of the original cause, the chain the new node
    heads is the chain it headed before, and so [Error()] and [Format] return
    on it what they returned before. *)
Theorem Wrap_copies_cause (getStack : result Trace) (h : Heap.heap) (c : Heap.loc)
    (cell : Heap.cell) (message : string) :
  h !! c = Some cell →
  ∃ (e copied : Heap.loc) (h1 : Heap.heap),
    Heap.wrapErr getStack h (Heap.vref c) message = Ok (h1, Heap.vref e) ∧
    h !! e = None ∧ h !! copied = None ∧ e ≠ copied ∧
    h1 !! e = Some (Heap.mkCell (Heap.vref copied) message None) ∧
    h1 !! copied = Some cell ∧
    (∀ l, l ≠ e → l ≠ copied → h1 !! l = h !! l) ∧
    (∀ (cell' : Heap.cell) (fuel : nat) (t : error),
       Heap.load fuel h1 (Heap.vref e) = Some t →
       Heap.load fuel (Heap.assign h1 c cell') (Heap.vref e) = Some t) ∧
    (∀ (cell' : Heap.cell) (fuel : nat) (r : result string),
       Heap.Error_Error fuel h1 (Heap.vref e) = Some r →
       Heap.Error_Error fuel (Heap.assign h1 c cell') (Heap.vref e) = Some r) ∧
    (∀ (cell' : Heap.cell) (fuel : nat) (minus : bool) (verb : ascii) (r : result string),
       Heap.Error_Format fuel h1 (Heap.vref e) minus verb = Some r →
       Heap.Error_Format fuel (Heap.assign h1 c cell') (Heap.vref e) minus verb = Some r).
Proof.
  intros Hc.
  destruct (Heap_wrapErr_ref getStack h c cell message Hc)
    as (e & copied & Hec & Hcc & Hne & He & Hcopied & Hwrap).
  exists e, copied, (<[e := Heap.mkCell (Heap.vref copied) message None]> (<[copied := cell]> h)).
  set (h1 := <[e := _]> _) in *.
  assert (h1 !! e = Some (Heap.mkCell (Heap.vref copied) message None)) as H1e
    by apply lookup_insert_eq.
  assert (h1 !! copied = Some cell) as H1copied
    by (unfold h1; by rewrite lookup_insert_ne, lookup_insert_eq).
  assert (∀ l, l ≠ e → l ≠ copied → h1 !! l = h !! l) as H1other
    by (intros l ??; unfold h1; by rewrite !lookup_insert_ne).
  assert (∀ cell' fuel t,
            Heap.load fuel h1 (Heap.vref e) = Some t →
            Heap.load fuel (Heap.assign h1 c cell') (Heap.vref e) = Some t) as Hframe.
  { intros cell' fuel t Hload.
    apply load_vref_inv in Hload as (f1 & c1 & i1 & -> & Hl1 & Hi1 & ->).
    rewrite H1e in Hl1. simplify_eq. cbn in Hi1.
    apply load_vref_inv in Hi1 as (f2 & c2 & i2 & -> & Hl2 & Hi2 & ->).
    rewrite H1copied in Hl2. simplify_eq.
    assert (h1 !! c = Some c2) as H1c by (by rewrite H1other).
    apply (load_vref_intro _ _ _ (Heap.mkCell (Heap.vref copied) message None));
      [by rewrite lookup_assign_ne|].
    apply load_vref_intro; [by rewrite lookup_assign_ne|].
    by apply (load_frame_inner h1 c c2 cell' H1c). }
  repeat (split; [done|]). split.
  - intros cell' fuel r. unfold Heap.Error_Error.
    destruct (Heap.load fuel h1 (Heap.vref e)) as [t|] eqn:Hload; [|done].
    by rewrite (Hframe cell' fuel t Hload).
  - intros cell' fuel minus verb r. unfold Heap.Error_Format.
    destruct (Heap.load fuel h1 (Heap.vref e)) as [t|] eqn:Hload; [|done].
    by rewrite (Hframe cell' fuel t Hload).
Qed.

Lemma Wrap_copies_cause_witness :
  ∃ (e copied : Heap.loc) (h1 : Heap.heap),
    Heap.wrapErr (Ok None) heap_inner (Heap.vref 1%positive) "outer" = Ok (h1, Heap.vref e) ∧
    heap_inner !! e = None ∧ heap_inner !! copied = None ∧ e ≠ copied ∧
    h1 !! e = Some (Heap.mkCell (Heap.vref copied) "outer" None) ∧
    h1 !! copied = Some (Heap.mkCell Heap.vnil "inner" (Some trace_main)) ∧
    (∀ l, l ≠ e → l ≠ copied → h1 !! l = heap_inner !! l) ∧
    (∀ (cell' : Heap.cell) (fuel : nat) (t : error),
       Heap.load fuel h1 (Heap.vref e) = Some t →
       Heap.load fuel (Heap.assign h1 1%positive cell') (Heap.vref e) = Some t) ∧
    (∀ (cell' : Heap.cell) (fuel : nat) (r : result string),
       Heap.Error_Error fuel h1 (Heap.vref e) = Some r →
       Heap.Error_Error fuel (Heap.assign h1 1%positive cell') (Heap.vref e) = Some r) ∧
    (∀ (cell' : Heap.cell) (fuel : nat) (minus : bool) (verb : ascii) (r : result string),
       Heap.Error_Format fuel h1 (Heap.vref e) minus verb = Some r →
       Heap.Error_Format fuel (Heap.assign h1 1%positive cell') (Heap.vref e) minus verb = Some r).
Proof. apply Wrap_copies_cause. reflexivity. Defined.

(** The wrapper of [heap_inner], before and after [inner.Message = "changed"]
    with the trace dropped. *)
Example Wrap_then_assign :
  ∃ h1 w, Heap.wrapErr (Ok None) heap_inner (Heap.vref 1%positive) "outer" = Ok (h1, w) ∧
          Heap.Error_Error 2 h1 w = Some (Ok "outer: inner") ∧
          Heap.Error_Error 2 (Heap.assign h1 1%positive (Heap.mkCell Heap.vnil "changed" None)) w
          = Some (Ok "outer: inner").
Proof. eexists _, _. split; [reflexivity|]. split; vm_compute; reflexivity. Qed.

Lemma load_vnil (fuel : nat) (h : Heap.heap) :
  Heap.load fuel h Heap.vnil = Some nil_error.
Proof. by destruct fuel. Qed.

Lemma load_vnil_ptr (fuel : nat) (h : Heap.heap) :
  Heap.load fuel h Heap.vnil_ptr = Some nil_ptr.
Proof. by destruct fuel. Qed.

Lemma load_vforeign (fuel : nat) (h : Heap.heap) (msg : string) :
  Heap.load fuel h (Heap.vforeign msg) = Some (foreign msg).
Proof. by destruct fuel. Qed.

(** An allocation changes no chain that was there. *)
Lemma load_insert_fresh (h : Heap.heap) (l : Heap.loc) (c : Heap.cell) (fuel : nat) :
  ∀ (v : Heap.value) (t : error),
  h !! l = None →
  Heap.load fuel h v = Some t →
  Heap.load fuel (<[l := c]> h) v = Some t.
Proof.
  induction fuel as [|fuel IH]; intros v t Hl Hload; [by destruct v|].
  destruct v as [| |l0|msg]; try done.
  apply load_vref_inv in Hload as (f & c0 & i & [= <-] & Hl0 & Hi & ->).
  apply load_vref_intro; [|by apply IH].
  rewrite lookup_insert_ne; [done|congruence].
Qed.

(** [wrapErr] on the store is [wrapErr] on the chains: it panics when that
    one does, and otherwise returns the head of the chain that one returns. *)
Theorem Heap_wrapErr_refines (getStack : result Trace) (h : Heap.heap)
    (v : Heap.value) (message : string) (fuel : nat) (t : error) :
  Heap.load fuel h v = Some t →
  match wrapErr getStack t message with
  | Ok tw => ∃ h1 w, Heap.wrapErr getStack h v message = Ok (h1, w) ∧
                     Heap.load (S fuel) h1 w = Some tw
  | Panic p => Heap.wrapErr getStack h v message = Panic p
  end.
Proof.
  intros Hload. destruct v as [| |c|msg].
  - rewrite load_vnil in Hload. simplify_eq. unfold wrapErr, Heap.wrapErr.
    destruct (Heap.alloc h _) as [h1 e]. destruct getStack as [st|p]; [|done].
    rewrite !bind_Ok. eexists _, _. split; [done|].
    apply (load_vref_intro _ _ _ (Heap.mkCell Heap.vnil message st));
      [apply lookup_insert_eq|apply load_vnil].
  - rewrite load_vnil_ptr in Hload. simplify_eq. unfold wrapErr, Heap.wrapErr.
    by destruct (Heap.alloc h _) as [h1 e].
  - apply load_vref_inv in Hload as (f & cell & i & -> & Hc & Hi & ->).
    cbn [wrapErr].
    destruct (Heap_wrapErr_ref getStack h c cell message Hc)
      as (e & copied & Hec & Hcc & Hne & He & Hcopied & Hwrap).
    eexists _, _. split; [exact Hwrap|].
    apply (load_vref_intro _ _ _ (Heap.mkCell (Heap.vref copied) message None));
      [by rewrite lookup_insert_eq|].
    apply load_vref_intro; [by rewrite lookup_insert_ne, lookup_insert_eq|].
    apply load_insert_fresh; [by rewrite lookup_insert_ne|].
    by apply load_insert_fresh.
  - rewrite load_vforeign in Hload. simplify_eq. unfold wrapErr, Heap.wrapErr.
    destruct (Heap.alloc h _) as [h1 e]. destruct getStack as [st|p]; [|done].
    rewrite !bind_Ok. eexists _, _. split; [done|].
    apply (load_vref_intro _ _ _ (Heap.mkCell (Heap.vforeign msg) message st));
      [apply lookup_insert_eq|apply load_vforeign].
Qed.

Lemma Heap_wrapErr_refines_witness :
  ∃ h1 w, Heap.wrapErr (Ok None) heap_inner (Heap.vref 1%positive) "outer" = Ok (h1, w) ∧
          Heap.load 2 h1 w
          = Some (ref (mkError (ref (mkError nil_error "inner" (Some trace_main))) "outer" None)).
Proof.
  apply (Heap_wrapErr_refines (Ok None) heap_inner (Heap.vref 1%positive) "outer" 1
           (ref (mkError nil_error "inner" (Some trace_main)))).
  reflexivity.
Defined.

(** * More of the code *)

(** ** [trimGOPATH]: what it is for *)

(** The file of a function lies [s + 1] separators below the root its
    package path is relative to, when the function's name has [s]
    separators.  Whatever the root the program was built under,
    [trimGOPATH] returns the path relative to it. *)
Theorem trimGOPATH_root_independent (name root rel : string) :
  strings_Count rel = (strings_Count name + 1)%nat →
  trimGOPATH name (root +:+ sep_string +:+ rel) = Ok rel.
Proof.
  intros Hrel.
  destruct (trimGOPATH_enough name (root +:+ sep_string +:+ rel))
    as (p & r & Hfile & Hr & ->).
  { rewrite !strings_Count_app, strings_Count_sep. lia. }
  destruct (suffix_after_separator_unique root p rel r Hfile) as [_ ->]; [lia|done].
Qed.

Lemma trimGOPATH_root_independent_witness :
  trimGOPATH "pkg/sub.Type.Method" ("/home/user/src" +:+ sep_string +:+ "pkg/sub/file.go")
  = Ok "pkg/sub/file.go".
Proof. apply trimGOPATH_root_independent. reflexivity. Defined.

(** What [trimGOPATH] returns is a suffix of the path, and trimming it again
    under the same name changes nothing. *)
Theorem trimGOPATH_idempotent (name file r : string) :
  trimGOPATH name file = Ok r →
  (∃ p, file = p +:+ r) ∧ trimGOPATH name r = Ok r.
Proof.
  intros Htrim.
  destruct (decide (strings_Count name + 2 ≤ strings_Count file)%nat) as [H|H].
  - destruct (trimGOPATH_enough name file H) as (p & r' & Hfile & Hr & Htrim').
    rewrite Htrim in Htrim'. simplify_eq. split.
    + exists (p +:+ sep_string). by rewrite app_assoc_string.
    + apply trimGOPATH_short. lia.
  - rewrite trimGOPATH_short in Htrim by lia. simplify_eq. split.
    + by exists "".
    + apply trimGOPATH_short. lia.
Qed.

Lemma trimGOPATH_idempotent_witness :
  (∃ p, "/home/user/src/pkg/sub/file.go" = p +:+ "pkg/sub/file.go") ∧
  trimGOPATH "pkg/sub.Type.Method" "pkg/sub/file.go" = Ok "pkg/sub/file.go".
Proof.
  apply (trimGOPATH_idempotent "pkg/sub.Type.Method" "/home/user/src/pkg/sub/file.go").
  reflexivity.
Defined.

(** ** The capture: which frames, how many, and the skip level *)

Lemma captures_functional (pc : Func) (f1 f2 : StackFrame) :
  captures pc f1 → captures pc f2 → f1 = f2.
Proof.
  destruct f1, f2. unfold captures. cbn. intros (-> & -> & -> & H1) (-> & -> & -> & H2).
  rewrite H1 in H2. by simplify_eq.
Qed.

(** [getStack] of part_003 records one frame for each of the first 32
    entries of the goroutine's stack past the skipped ones, in the order of
    the stack, with the function, file and line of the entry and the file
    trimmed by [trimGOPATH]; the trace is the nil slice when there is none. *)
Theorem Stack_getStack_frames (rt : Runtime) :
  ∃ fs : list StackFrame,
    Forall2 captures
      (take maxStackDepth (drop (Z.to_nat (callerSkipLevel rt)) (goroutine rt))) fs ∧
    length fs = (maxStackDepth `min`
                   (length (goroutine rt) - Z.to_nat (callerSkipLevel rt)))%nat ∧
    Stack.getStack rt = Ok (match fs with [] => None | _ => Some fs end).
Proof.
  unfold Stack.getStack.
  destruct (getStack_loop_total (runtime_Callers (callerSkipLevel rt) (goroutine rt)) None)
    as (fs & Hfs & ->).
  exists fs. split; [done|]. split.
  - rewrite <-(Forall2_length _ _ _ Hfs). apply length_runtime_Callers.
  - destruct Hfs; done.
Qed.

Lemma int_wrap_id (z : Z) : - 2 ^ 63 ≤ z < 2 ^ 63 → int_wrap z = z.
Proof. intros Hz. unfold int_wrap. rewrite Z.mod_small; lia. Qed.

Lemma int_wrap_over (z : Z) : 2 ^ 63 ≤ z < 2 ^ 64 → int_wrap z = z - 2 ^ 64.
Proof.
  intros Hz. unfold int_wrap.
  replace (z + 2 ^ 63) with ((z - 2 ^ 63) + 1 * 2 ^ 64) by lia.
  rewrite Z_mod_plus_full, Z.mod_small; lia.
Qed.

(** [AdjustCallerSkipLevel] on a level that is at least the minimum and an
    amount, both of them values of an [int].  The sum is stored when it is an
    [int] and at least the minimum; a sum below the minimum and a sum that
    overflows both store the minimum.  So raising the level by [k] and then
    lowering it by [k] restores it, while lowering first is lost: from the
    level the package starts with, [-k] and then [k] leaves it raised by [k]. *)
Theorem AdjustCallerSkipLevel_cases (level amt : Z) :
  Stack.minCallerSkipLevel ≤ level < 2 ^ 63 →
  - 2 ^ 63 ≤ amt < 2 ^ 63 →
  (Stack.minCallerSkipLevel ≤ level + amt < 2 ^ 63 →
     Stack.AdjustCallerSkipLevel amt level = level + amt) ∧
  (level + amt < Stack.minCallerSkipLevel →
     Stack.AdjustCallerSkipLevel amt level = Stack.minCallerSkipLevel) ∧
  (2 ^ 63 ≤ level + amt →
     Stack.AdjustCallerSkipLevel amt level = Stack.minCallerSkipLevel) ∧
  (0 ≤ amt → level + amt < 2 ^ 63 →
     Stack.AdjustCallerSkipLevel (- amt) (Stack.AdjustCallerSkipLevel amt level) = level) ∧
  (0 ≤ amt → Stack.callerSkipLevel_init + amt < 2 ^ 63 →
     Stack.AdjustCallerSkipLevel amt
       (Stack.AdjustCallerSkipLevel (- amt) Stack.callerSkipLevel_init)
     = Stack.callerSkipLevel_init + amt).
Proof.
  unfold Stack.callerSkipLevel_init, Stack.minCallerSkipLevel.
  intros Hlevel Hamt.
  assert (∀ l a, 4 ≤ l + a < 2 ^ 63 → Stack.AdjustCallerSkipLevel a l = l + a) as Hin.
  { intros l a H. unfold Stack.AdjustCallerSkipLevel, Stack.minCallerSkipLevel.
    rewrite int_wrap_id by lia. by rewrite bool_decide_true by lia. }
  assert (∀ l a, - 2 ^ 63 ≤ l + a < 4 → Stack.AdjustCallerSkipLevel a l = 4) as Hlow.
  { intros l a H. unfold Stack.AdjustCallerSkipLevel, Stack.minCallerSkipLevel.
    rewrite int_wrap_id by lia. by rewrite bool_decide_false by lia. }
  repeat split.
  - intros H. apply Hin. lia.
  - intros H. apply Hlow. lia.
  - intros H. unfold Stack.AdjustCallerSkipLevel, Stack.minCallerSkipLevel.
    rewrite int_wrap_over by lia. by rewrite bool_decide_false by lia.
  - intros H0 H. rewrite (Hin level amt) by lia. rewrite Hin by lia. lia.
  - intros H0 H. destruct (decide (amt = 0)) as [->|Hne].
    + rewrite (Hin 4 (- 0)) by lia. replace (4 + - 0) with 4 by lia. apply Hin. lia.
    + rewrite (Hlow 4 (- amt)) by lia. apply Hin. lia.
Qed.

Lemma AdjustCallerSkipLevel_cases_witness :
  Stack.AdjustCallerSkipLevel (- 3) (Stack.AdjustCallerSkipLevel 3 6) = 6.
Proof.
  refine (proj1 (proj2 (proj2 (proj2 (AdjustCallerSkipLevel_cases 6 3 _ _)))) _ _);
    unfold Stack.minCallerSkipLevel; lia.
Defined.

(** Raising the skip level by [k] drops the [k] frames below the caller from
    the front of the trace: the capture is the capture, at the old level, on
    the stack without the [k] entries that follow the skipped ones; it is
    also the capture at the old level by a caller [k] frames further up. *)
Theorem AdjustCallerSkipLevel_shifts_trace (level k : Z) (stack : list Func) :
  Stack.minCallerSkipLevel ≤ level → 0 ≤ k → level + k < 2 ^ 63 →
  Stack.getStack (mkRuntime (Stack.AdjustCallerSkipLevel k level) stack)
  = Stack.getStack (mkRuntime level (drop (Z.to_nat k) stack)).
Proof.
  unfold Stack.minCallerSkipLevel. intros Hlevel Hk Hsum.
  unfold Stack.AdjustCallerSkipLevel, Stack.minCallerSkipLevel.
  rewrite int_wrap_id by lia. rewrite bool_decide_true by lia.
  unfold Stack.getStack, runtime_Callers. cbn [callerSkipLevel goroutine].
  rewrite drop_drop. do 3 f_equal. lia.
Qed.

Lemma AdjustCallerSkipLevel_shifts_trace_witness :
  Stack.getStack (mkRuntime (Stack.AdjustCallerSkipLevel 1 4) goroutine_main)
  = Stack.getStack (mkRuntime 4 (drop (Z.to_nat 1) goroutine_main)).
Proof.
  apply AdjustCallerSkipLevel_shifts_trace; unfold Stack.minCallerSkipLevel; lia.
Defined.

Lemma getStack_loop_Some (pcs : list Func) : ∀ (st r : Trace),
  getStack_loop pcs st = Ok r →
  getStack_loop pcs (Some (default [] st)) = Ok (Some (default [] r)).
Proof.
  induction pcs as [|pc pcs IH]; intros st r Hloop.
  - cbn in *. by simplify_eq.
  - cbn [getStack_loop] in *.
    destruct (trimGOPATH (Name pc) (File pc)) as [trimmed|]; [|done].
    rewrite bind_Ok in *.
    change (append_frame (Some (default [] st)) ?f) with (append_frame st f).
    rewrite Hloop. do 2 f_equal.
    destruct (getStack_loop_total pcs
                (append_frame st (mkStackFrame (Name pc) (File pc) trimmed (FileLine pc))))
      as (fs & _ & Hfs).
    rewrite Hfs in Hloop. by destruct pcs; simplify_eq/=.
Qed.

(** The two revisions of the capture record the same frames when the older
    one is set to the level [k] and the later one holds [4 + k]: they differ
    only on a stack without a frame past the skipped ones, where the later
    one returns the nil slice and the older one a pointer to an empty trace. *)
Theorem getStack_revisions_agree (k : Z) (stack : list Func) :
  - 2 ^ 63 ≤ 4 + k < 2 ^ 63 →
  ∃ st : Trace,
    Stack.getStack (mkRuntime (4 + k) stack) = Ok st ∧
    StackPtr.getStack (mkRuntime (StackPtr.SetCallerSkipLevel k StackPtr.callerSkipLevel_init)
                         stack)
    = Ok (Some (default [] st)).
Proof.
  intros Hk. destruct (Stack_getStack_total (mkRuntime (4 + k) stack)) as (st & Hst & _).
  exists st. split; [done|].
  unfold StackPtr.getStack, StackPtr.SetCallerSkipLevel. cbn [callerSkipLevel goroutine].
  rewrite int_wrap_id by lia.
  by apply (getStack_loop_Some _ None st).
Qed.

Lemma getStack_revisions_agree_witness :
  ∃ st : Trace,
    Stack.getStack (mkRuntime (4 + 1) goroutine_main) = Ok st ∧
    StackPtr.getStack (mkRuntime (StackPtr.SetCallerSkipLevel 1 StackPtr.callerSkipLevel_init)
                         goroutine_main)
    = Ok (Some (default [] st)).
Proof. apply getStack_revisions_agree. lia. Defined.

(** ** The accessors of error.go *)

Lemma ErrorGo_New_ok (rt : Runtime) (message : string) :
  ∃ fs, StackPtr.getStack rt = Ok (Some fs) ∧
        ErrorGo.New rt message = Ok (ref (mkError nil_error message (Some fs))).
Proof.
  destruct (StackPtr_getStack_total rt) as [fs Hfs]. exists fs.
  split; [done|]. unfold ErrorGo.New, newErr. by rewrite Hfs.
Qed.

(** [GetInner] of [Wrap(c, m)].  For a cause that is a [*Error] it is not
    the cause: it is a pointer to a struct that was not in the store before,
    which holds the three fields of the cause, and the cause is as it was;
    the wrapper has no trace, the copy has the trace of the cause.  For a
    cause that is not a [*Error] (nil, or a foreign error, which the model
    knows by its text) it is the cause as it was passed, and the wrapper has
    the trace captured in [Wrap].  The accessors on the store read what the
    accessors on the chains read.  On the chains: a node made by [New] has no
    inner error; the trace of [Wrap(New(m1), m2)] is nil, and its inner error
    carries the trace [New] captured, not one of the place of [Wrap]. *)
Theorem GetInner_Wrap :
  (∀ (getStack : result Trace) (h : Heap.heap) (c : Heap.loc) (cell : Heap.cell)
     (message : string),
     h !! c = Some cell →
     ∃ (h1 : Heap.heap) (w : Heap.value) (copied : Heap.loc),
       Heap.wrapErr getStack h (Heap.vref c) message = Ok (h1, w) ∧
       Heap.GetInner h1 w = Ok (Heap.vref copied) ∧
       copied ≠ c ∧ h !! copied = None ∧
       h1 !! copied = Some cell ∧ h1 !! c = Some cell ∧
       Heap.GetStackTrace h1 w = Ok None ∧
       Heap.GetStackTrace h1 (Heap.vref copied) = Ok (Heap.cStackTrace cell)) ∧
  (∀ (getStack : result Trace) (h h1 : Heap.heap) (c w : Heap.value) (message : string),
     (c = Heap.vnil ∨ ∃ msg, c = Heap.vforeign msg) →
     Heap.wrapErr getStack h c message = Ok (h1, w) →
     Heap.GetInner h1 w = Ok c ∧ Heap.GetStackTrace h1 w = getStack) ∧
  (∀ (fuel : nat) (h : Heap.heap) (v : Heap.value) (t : error),
     Heap.load fuel h v = Some t →
     match ErrorGo.GetInner t with
     | Ok i => ∃ vi, Heap.GetInner h v = Ok vi ∧ Heap.load fuel h vi = Some i
     | Panic p => Heap.GetInner h v = Panic p
     end ∧
     Heap.GetStackTrace h v = ErrorGo.GetStackTrace t) ∧
  (∀ (rt : Runtime) (message : string),
     (e ← ErrorGo.New rt message; ErrorGo.GetInner e) = Ok nil_error) ∧
  (∀ (rt1 rt2 : Runtime) (m1 m2 : string),
     (c ← ErrorGo.New rt1 m1; w ← ErrorGo.Wrap rt2 c m2; ErrorGo.GetStackTrace w)
     = Ok None ∧
     (c ← ErrorGo.New rt1 m1; w ← ErrorGo.Wrap rt2 c m2; i ← ErrorGo.GetInner w;
      ErrorGo.GetStackTrace i)
     = StackPtr.getStack rt1).
Proof.
  split; [|split; [|split; [|split]]].
  - intros getStack h c cell message Hc.
    destruct (Heap_wrapErr_ref getStack h c cell message Hc)
      as (e & copied & Hec & Hcc & Hne & He & Hcopied & Hwrap).
    eexists _, _, copied. split; [exact Hwrap|].
    unfold Heap.GetInner, Heap.GetStackTrace, Heap.deref.
    rewrite lookup_insert_eq, lookup_insert_ne, lookup_insert_eq by done.
    rewrite !lookup_insert_ne by done. by rewrite Hc.
  - intros getStack h h1 c w message Hcause. unfold Heap.wrapErr.
    destruct (Heap.alloc h _) as [h0 e].
    destruct Hcause as [->|[msg ->]];
      (destruct getStack as [st|p]; [|done]); rewrite bind_Ok; intros [= <- <-];
      unfold Heap.GetInner, Heap.GetStackTrace, Heap.deref, Heap.assign;
      by rewrite lookup_insert_eq.
  - intros fuel h v t Hload. destruct v as [| |l|msg].
    + rewrite load_vnil in Hload. simplify_eq. cbn. split; [|done].
      exists Heap.vnil. by rewrite load_vnil.
    + rewrite load_vnil_ptr in Hload. by simplify_eq.
    + apply load_vref_inv in Hload as (f & c & i & -> & Hc & Hi & ->).
      cbn [ErrorGo.GetInner ErrorGo.GetStackTrace Inner StackTrace].
      unfold Heap.GetInner, Heap.GetStackTrace, Heap.deref. rewrite Hc, !bind_Ok.
      split; [|done]. exists (Heap.cInner c). split; [done|].
      apply (load_mono h f); [lia|done].
    + rewrite load_vforeign in Hload. simplify_eq. cbn. split; [|done].
      exists Heap.vnil. by rewrite load_vnil.
  - intros rt message. by destruct (ErrorGo_New_ok rt message) as (fs & _ & ->).
  - intros rt1 rt2 m1 m2. destruct (ErrorGo_New_ok rt1 m1) as (fs & Hfs & ->).
    by rewrite Hfs.
Qed.

Lemma GetInner_Wrap_witness :
  ∃ (h1 : Heap.heap) (w : Heap.value) (copied : Heap.loc),
    Heap.wrapErr (Ok None) heap_inner (Heap.vref 1%positive) "outer" = Ok (h1, w) ∧
    Heap.GetInner h1 w = Ok (Heap.vref copied) ∧
    copied ≠ 1%positive ∧ heap_inner !! copied = None ∧
    h1 !! copied = Some (Heap.mkCell Heap.vnil "inner" (Some trace_main)) ∧
    h1 !! 1%positive = Some (Heap.mkCell Heap.vnil "inner" (Some trace_main)) ∧
    Heap.GetStackTrace h1 w = Ok None ∧
    Heap.GetStackTrace h1 (Heap.vref copied) = Ok (Some trace_main).
Proof.
  apply (proj1 GetInner_Wrap (Ok None) heap_inner 1%positive
           (Heap.mkCell Heap.vnil "inner" (Some trace_main)) "outer").
  reflexivity.
Defined.

(** ** The revisions of the renderers *)

(** [printStack] of part_001 and [error] of error.go are one function. *)
Lemma Print_printStack_ErrorGo (e : Error) : ∀ depth,
  Print.Error_printStack e depth = ErrorGo.Error_error e depth.
Proof. reflexivity. Qed.

(** The revisions print the same.  [PrintMessages] of part_001 is [Error()]
    of part_000, of part_001 and of part_002, on every error but the nil
    interface; [%-v] and [%-s] of part_000 and [%s] of part_002 print the
    same text.  [PrintWithStack] of part_001 on a [*Error] is [Error()] of
    error.go, and [%v] of part_002 is [%v] and [%s] of part_000. *)
Theorem renderers_agree (e : Error) :
  Print.PrintMessages (ref e) = Fmt.Error_Error e ∧
  Print.Error_Error e = Fmt.Error_Error e ∧
  Fmt.Error_Format e true "v" = Fmt.Error_Error e ∧
  Fmt.Error_Format e true "s" = Fmt.Error_Error e ∧
  FmtOld.Error_Format e false "s" = Fmt.Error_Error e ∧
  Print.PrintWithStack (ref e) = ErrorGo.Error_Error e ∧
  FmtOld.Error_Format e false "v" = Fmt.Error_Format e false "v" ∧
  FmtOld.Error_Format e true "v" = Fmt.Error_Format e false "s".
Proof.
  repeat split;
    first [apply Print_message_Fmt | apply Print_printStack_ErrorGo | reflexivity].
Qed.

(** ** Printing with traces *)

Lemma write_stack_prefix (b sepr : string) (depth : Z) (st : Trace) :
  write_stack b sepr depth st = t ← write_stack "" sepr depth st; Ok (b +:+ t).
Proof.
  unfold write_stack, WriteString. case_bool_decide; [|by rewrite app_assoc_string].
  destruct (strings_Repeat sepr (depth + 1)) as [prefix|]; [|done]. rewrite !bind_Ok.
  destruct (slice_from prefix (depth * 2)) as [old|]; [|done]. rewrite !bind_Ok.
  by rewrite app_assoc_string.
Qed.

Lemma repeat_string_snoc (s : string) (n : nat) :
  repeat_string s (S n) = repeat_string s n +:+ s.
Proof.
  induction n as [|n IH]; [cbn; by rewrite app_empty_r|].
  cbn [repeat_string] in *. by rewrite IH at 1; rewrite app_assoc_string.
Qed.

(** [prefix[depth*2:]] is the repeated string itself when that has two
    bytes. *)
Lemma slice_prefix (sepr : string) (depth : Z) :
  0 ≤ depth → len sepr = 2 →
  (prefix ← strings_Repeat sepr (depth + 1); slice_from prefix (depth * 2)) = Ok sepr.
Proof.
  intros Hd Hsepr. unfold strings_Repeat. rewrite bool_decide_false by lia.
  rewrite bind_Ok. replace (Z.to_nat (depth + 1)) with (S (Z.to_nat depth)) by lia.
  rewrite repeat_string_snoc.
  replace (depth * 2) with (len (repeat_string sepr (Z.to_nat depth)));
    [apply slice_from_app|].
  rewrite len_repeat_string. lia.
Qed.

Lemma replace_from_absent (old new s : string) :
  contains old s = false → replace_from old new s 0 = s.
Proof.
  induction s as [|c s IH]; [done|]. cbn [contains replace_from].
  intros [Hhead Htail]%orb_false_elim. rewrite Hhead. by rewrite IH.
Qed.

Lemma strings_Replace_absent (s old new : string) :
  old ≠ "" → contains old s = false → strings_Replace s old new = s.
Proof.
  intros Hold Hs. unfold strings_Replace. destruct old; [done|].
  by apply replace_from_absent.
Qed.

Lemma built_no_nil_ptr (e : Error) : built e → no_nil_ptr e = true.
Proof. induction 1; done. Qed.

Lemma innermost_zero (e : Error) :
  Error_isZero e = true → StackTrace (innermost e) = None.
Proof. by destruct e as [[] [] []]. Qed.

Lemma Fmt_error_built (e : Error) : built e → ∀ depth : Z,
  Fmt.Error_error e depth ": " true =
  s ← Fmt.Error_error e depth ": " false;
  if is_nil_trace (StackTrace (innermost e)) then Ok s
  else write_stack s ": " (depth + Z.of_nat (wraps e)) (StackTrace (innermost e)).
Proof.
  induction 1 as [m st|msg m st|inner m Hinner IH]; intros depth.
  - rewrite Fmt_message_only. cbn [Fmt.Error_error Inner Message StackTrace innermost wraps].
    rewrite write_message, !bind_Ok, andb_true_r, Z.add_0_r. by destruct st.
  - rewrite Fmt_message_only. cbn [Fmt.Error_error Inner Message StackTrace innermost wraps].
    rewrite write_message, !bind_Ok, andb_true_r, Z.add_0_r. by destruct st.
  - rewrite Fmt_message_only. cbn [Fmt.Error_error Inner Message StackTrace innermost wraps].
    rewrite write_message.
    destruct (Error_isZero inner) eqn:Hzero; cbn [negb].
    + rewrite !bind_Ok. cbn. by rewrite (innermost_zero inner Hzero).
    + rewrite (IH (depth + 1)).
      rewrite (Fmt_message_only_links inner (depth + 1) (built_no_nil_ptr inner Hinner)).
      rewrite !bind_Ok. cbn [is_nil_trace andb].
      replace (depth + Z.of_nat (S (wraps inner)))
        with (depth + 1 + Z.of_nat (wraps inner)) by lia.
      destruct (is_nil_trace (StackTrace (innermost inner))); [done|].
      rewrite (write_stack_prefix (chain_text (links inner))).
      rewrite (write_stack_prefix (pad m ": " +:+ chain_text (links inner))).
      destruct (write_stack "" ": " _ _) as [t|]; [|done]. rewrite !bind_Ok.
      unfold WriteString. by rewrite app_assoc_string.
Qed.

(** What [New] and [Wrap] return is a [built] chain, and on a [built] chain
    [%v] prints what [Error()] returns and then the one trace such a chain
    can hold, that of its innermost node, as [error] writes a trace at the
    depth of that node: the message line comes first and whole, and the
    frames follow it. *)
Theorem Format_built_chain :
  (∀ (rt : Runtime) (message : string) (e : Error),
     Fmt.New rt message = Ok (ref e) → built e) ∧
  (∀ (rt : Runtime) (c : error) (message : string) (e : Error),
     match c with ref inner => built inner | _ => True end →
     Fmt.Wrap rt c message = Ok (ref e) → built e) ∧
  (∀ e : Error, built e →
     Fmt.Error_Format e false "v" =
     s ← Fmt.Error_Error e;
     if is_nil_trace (StackTrace (innermost e)) then Ok s
     else write_stack s ": " (Z.of_nat (wraps e)) (StackTrace (innermost e))).
Proof.
  split; [|split].
  - intros rt message e. destruct (Fmt_New_ok rt message) as (st & _ & ->).
    intros [= <-]. constructor.
  - intros rt c message e Hc. unfold Fmt.Wrap, wrapErr.
    destruct (Stack_getStack_total rt) as (st & -> & _).
    destruct c; cbn; intros [= <-]; by constructor.
  - intros e He. unfold Fmt.Error_Format, Fmt.Error_Error. cbn [Ascii.eqb orb].
    by rewrite (Fmt_error_built e He 0).
Qed.

Lemma Format_built_chain_witness :
  Fmt.Error_Format wrapped_empty false "v" =
  s ← Fmt.Error_Error wrapped_empty;
  if is_nil_trace (StackTrace (innermost wrapped_empty)) then Ok s
  else write_stack s ": " (Z.of_nat (wraps wrapped_empty))
         (StackTrace (innermost wrapped_empty)).
Proof.
  apply (proj2 (proj2 Format_built_chain)). repeat constructor.
Defined.

(** In part_000 the string [error] repeats to indent a trace is the
    parameter [separator], that is [": "], and what [strings.Replace] rewrites
    is every [": "] of the trace's text.  A trace whose text holds no [": "]
    is printed as it is, at every depth: below a newline, not indented. *)
Theorem write_stack_not_indented (b : string) (depth : Z) (st : Trace) :
  0 ≤ depth →
  contains ": " (StackTrace_String st) = false →
  write_stack b ": " depth st = Ok (b +:+ newline +:+ StackTrace_String st).
Proof.
  intros Hd Hst. unfold write_stack, WriteString. case_bool_decide.
  - pose proof (slice_prefix ": " depth Hd eq_refl) as Hslice.
    destruct (strings_Repeat ": " (depth + 1)) as [prefix|]; [|done].
    rewrite bind_Ok in *. rewrite Hslice, bind_Ok.
    rewrite strings_Replace_absent by done. by rewrite app_assoc_string.
  - by rewrite app_assoc_string.
Qed.

Lemma write_stack_not_indented_witness :
  write_stack "outer: inner" ": " 1 (Some trace_main)
  = Ok ("outer: inner" +:+ newline +:+ StackTrace_String (Some trace_main)).
Proof. apply write_stack_not_indented; [lia|reflexivity]. Defined.

(** *** Indentation in error.go and part_001 *)

Lemma foldl_WriteString (fs : list StackFrame) : ∀ b : string,
  foldl (λ b f, WriteString b (StackFrame_String f)) b fs = b +:+ frames_String fs.
Proof.
  unfold frames_String. induction fs as [|f fs IH]; intros b; [by rewrite app_empty_r|].
  cbn [foldl]. rewrite IH, (IH (WriteString "" _)). unfold WriteString.
  by rewrite app_assoc_string.
Qed.

Lemma frames_String_cons (f : StackFrame) (fs : list StackFrame) :
  frames_String (f :: fs) = "  " +:+ frame_text f +:+ frames_String fs.
Proof.
  unfold frames_String at 1. cbn [foldl]. rewrite foldl_WriteString.
  unfold WriteString, StackFrame_String, frame_text.
  by rewrite !app_empty_l, !app_assoc_string.
Qed.

Lemma frame_text_newline (f : StackFrame) : ∃ body, frame_text f = body +:+ newline.
Proof.
  exists ("at " +:+ FunctionName f +:+ "(" +:+ TrimmedFileName f +:+ ":"
            +:+ itoa (Line f) +:+ ")").
  unfold frame_text. by rewrite !app_assoc_string.
Qed.

Lemma prefix_cons (a b : ascii) (s1 s2 : string) :
  String.prefix (String a s1) (String b s2)
  = if Ascii.ascii_dec a b then String.prefix s1 s2 else false.
Proof. reflexivity. Qed.

Lemma prefix_two_app (old : string) (c : ascii) (z y : string) :
  String.length old = 2%nat → z ≠ "" →
  String.prefix old (String c (z +:+ y)) = String.prefix old (String c z).
Proof.
  intros Hold Hz. destruct old as [|a [|a' [|]]]; try done.
  destruct z as [|c' z]; [done|]. rewrite app_cons, !prefix_cons.
  destruct (Ascii.ascii_dec a c); [|done].
  destruct (Ascii.ascii_dec a' c'); [|done]. by destruct z, y.
Qed.

(** A line without two spaces in a row is copied by
    [strings.Replace(_, "  ", new, -1)], and the rewriting goes on behind it. *)
Lemma replace_from_line (new y : string) : ∀ body : string,
  contains "  " (body +:+ newline) = false →
  replace_from "  " new (body +:+ newline +:+ y) 0
  = body +:+ newline +:+ replace_from "  " new y 0.
Proof.
  induction body as [|c body IH]; intros Hbody; [done|].
  rewrite !app_cons in *. cbn [contains] in Hbody.
  apply orb_false_elim in Hbody as [Hhead Htail].
  cbn [replace_from]. rewrite <-(app_assoc_string body newline y).
  rewrite prefix_two_app, Hhead; [|done|by destruct body].
  by rewrite app_assoc_string, IH.
Qed.

Lemma prefix_empty (s : string) : String.prefix "" s = true.
Proof. by destruct s. Qed.

Lemma replace_from_match (new z : string) :
  replace_from "  " new ("  " +:+ z) 0 = new +:+ replace_from "  " new z 0.
Proof.
  change ("  " +:+ z) with (String " " (String " " z)).
  cbn [replace_from]. change "  " with (String " " (String " " "")).
  rewrite !prefix_cons.
  destruct (Ascii.ascii_dec " " " ") as [_|Hne]; [|by destruct Hne].
  by rewrite prefix_empty.
Qed.

Lemma strings_Replace_frames (new : string) (fs : list StackFrame) :
  Forall (λ f, contains "  " (frame_text f) = false) fs →
  strings_Replace (frames_String fs) "  " new
  = String.concat "" (map (λ f, new +:+ frame_text f) fs).
Proof.
  unfold strings_Replace. induction 1 as [|f fs Hf _ IH]; [done|].
  rewrite frames_String_cons. cbn [map].
  destruct (frame_text_newline f) as [body Hbody]. rewrite Hbody in *.
  rewrite replace_from_match.
  rewrite app_assoc_string, replace_from_line, IH by done.
  cbn [String.concat]. destruct (map _ fs) eqn:Hmap.
  - cbn [String.concat]. by rewrite app_empty_r.
  - by rewrite ?app_assoc_string.
Qed.

Lemma frames_String_concat (fs : list StackFrame) :
  frames_String fs = String.concat "" (map (λ f, "  " +:+ frame_text f) fs).
Proof.
  induction fs as [|f fs IH]; [done|]. rewrite frames_String_cons, IH.
  cbn [map String.concat]. destruct (map _ fs); [by rewrite app_empty_r|done].
Qed.

Lemma write_stack_indented (b : string) (depth : Z) (fs : list StackFrame) :
  0 ≤ depth →
  Forall (λ f, contains "  " (frame_text f) = false) fs →
  write_stack b separator depth (Some fs)
  = Ok (b +:+ newline +:+
        String.concat ""
          (map (λ f, repeat_string separator (S (Z.to_nat depth)) +:+ frame_text f) fs)).
Proof.
  intros Hd Hfs. unfold write_stack, WriteString, StackTrace_String. cbn [default].
  case_bool_decide.
  - pose proof (slice_prefix separator depth Hd eq_refl) as Hslice.
    unfold strings_Repeat in *. rewrite bool_decide_false in * by lia.
    rewrite bind_Ok in *. rewrite Hslice, bind_Ok.
    replace (Z.to_nat (depth + 1)) with (S (Z.to_nat depth)) by lia.
    unfold separator at 2. rewrite strings_Replace_frames by done.
    by rewrite app_assoc_string.
  - replace depth with 0 by lia. rewrite frames_String_concat.
    by rewrite app_assoc_string.
Qed.

(** In error.go and in part_001 a node with a trace is printed as the node
    without it, then a newline, then the lines of the trace, each indented by
    [depth + 1] times the two spaces of [separator]: the frames of a cause sit
    that far to the right of the message they belong to.  This holds when no
    line of the trace has two spaces in a row (a function or file name with
    two spaces would have them repeated as well). *)
Theorem ErrorGo_trace_indented (inner : error) (message : string)
    (fs : list StackFrame) (depth : Z) :
  0 ≤ depth →
  Forall (λ f, contains "  " (frame_text f) = false) fs →
  ErrorGo.Error_error (mkError inner message (Some fs)) depth =
  (b ← ErrorGo.Error_error (mkError inner message None) depth;
   Ok (b +:+ newline +:+
       String.concat ""
         (map (λ f, repeat_string separator (S (Z.to_nat depth)) +:+ frame_text f) fs))) ∧
  Print.Error_printStack (mkError inner message (Some fs)) depth =
  (b ← Print.Error_printStack (mkError inner message None) depth;
   Ok (b +:+ newline +:+
       String.concat ""
         (map (λ f, repeat_string separator (S (Z.to_nat depth)) +:+ frame_text f) fs))).
Proof.
  intros Hd Hfs.
  enough (ErrorGo.Error_error (mkError inner message (Some fs)) depth =
          (b ← ErrorGo.Error_error (mkError inner message None) depth;
           Ok (b +:+ newline +:+
               String.concat ""
                 (map (λ f, repeat_string separator (S (Z.to_nat depth)) +:+ frame_text f)
                    fs)))) as H by (split; exact H).
  cbn [ErrorGo.Error_error Inner Message StackTrace is_nil_trace negb].
  rewrite write_message.
  destruct (match inner with nil_error => _ | _ => _ end) as [b|]; [|done].
  rewrite !bind_Ok. by apply write_stack_indented.
Qed.

Lemma ErrorGo_trace_indented_witness :
  ErrorGo.Error_error (mkError nil_error "inner" (Some trace_main)) 1 =
  (b ← ErrorGo.Error_error (mkError nil_error "inner" None) 1;
   Ok (b +:+ newline +:+
       String.concat ""
         (map (λ f, repeat_string separator (S (Z.to_nat 1)) +:+ frame_text f) trace_main))) ∧
  Print.Error_printStack (mkError nil_error "inner" (Some trace_main)) 1 =
  (b ← Print.Error_printStack (mkError nil_error "inner" None) 1;
   Ok (b +:+ newline +:+
       String.concat ""
         (map (λ f, repeat_string separator (S (Z.to_nat 1)) +:+ frame_text f) trace_main))).
Proof.
  apply ErrorGo_trace_indented; [lia|]. repeat constructor.
Defined.

(** *** The older renderers do not panic either *)

Lemma ErrorGo_error_total (e : Error) : ∀ depth : Z,
  0 ≤ depth → no_nil_ptr e = true → ∃ s, ErrorGo.Error_error e depth = Ok s.
Proof.
  induction e as [i m st IH] using Error_inner_ind. intros depth Hd Hsound.
  cbn [ErrorGo.Error_error Inner Message StackTrace]. rewrite write_message.
  assert (∀ b, ∃ s, (if negb (is_nil_trace st)
                     then write_stack b separator depth st else Ok b) = Ok s) as Htail.
  { intros b. destruct (negb (is_nil_trace st)); [|eauto].
    by apply write_stack_total. }
  destruct i as [| |inner|msg]; cbn in Hsound; [apply Htail|done| |apply Htail].
  unfold strings_Repeat. rewrite bool_decide_false by lia. rewrite bind_Ok.
  destruct (Error_isZero inner); cbn [negb]; [rewrite bind_Ok; apply Htail|].
  destruct (IH inner eq_refl (depth + 1)) as [s ->]; [lia|done|].
  rewrite !bind_Ok. apply Htail.
Qed.

(** On an error that holds no nil [*Error], the nil interface and foreign
    errors included, [PrintMessages] and [PrintWithStack] of part_001 return,
    and so does [Error()] of error.go on a node of such a chain. *)
Theorem Print_helpers_total :
  (∀ err : error,
     match err with ref e => no_nil_ptr e = true | nil_ptr => False | _ => True end →
     (∃ s, Print.PrintMessages err = Ok s) ∧ (∃ s, Print.PrintWithStack err = Ok s)) ∧
  (∀ e : Error, no_nil_ptr e = true → ∃ s, ErrorGo.Error_Error e = Ok s).
Proof.
  split.
  - intros [| |e|msg] Herr; [by eauto|done| |by eauto]. split.
    + cbn [Print.PrintMessages]. rewrite Print_message_Fmt. by apply Fmt_error_total.
    + cbn [Print.PrintWithStack]. rewrite Print_printStack_ErrorGo.
      by apply ErrorGo_error_total.
  - intros e He. by apply ErrorGo_error_total.
Qed.

Lemma Print_helpers_total_witness :
  ∃ s, ErrorGo.Error_Error wrapped_empty = Ok s.
Proof. apply (proj2 Print_helpers_total). reflexivity. Defined.

(** ** The store: what the copy shares *)

(** The copy [Wrap] makes is one struct deep.  When the cause's [Inner]
    points to a struct, the copy's [Inner] points to the same struct: after
    an assignment to the fields of that struct the wrapper heads a chain with
    the new fields in it, so the wrapper prints the new message. *)
Theorem Wrap_shares_inner (getStack : result Trace) (h : Heap.heap) (c d : Heap.loc)
    (cell dcell : Heap.cell) (message : string) :
  h !! c = Some cell → Heap.cInner cell = Heap.vref d → h !! d = Some dcell →
  ∃ (e : Heap.loc) (h1 : Heap.heap),
    Heap.wrapErr getStack h (Heap.vref c) message = Ok (h1, Heap.vref e) ∧
    (∀ (cell' : Heap.cell) (fuel : nat) (t : error),
       Heap.load fuel (Heap.assign h1 d cell') (Heap.vref d) = Some t →
       Heap.load (S (S fuel)) (Heap.assign h1 d cell') (Heap.vref e)
       = Some (ref (mkError (ref (mkError t (Heap.cMessage cell) (Heap.cStackTrace cell)))
                      message None))) ∧
    (∀ message' : string,
       Heap.load 3 (Heap.assign h1 d (Heap.mkCell Heap.vnil message' None)) (Heap.vref e)
       = Some (ref (mkError
                      (ref (mkError (ref (mkError nil_error message' None))
                              (Heap.cMessage cell) (Heap.cStackTrace cell)))
                      message None))).
Proof.
  intros Hc Hinner Hd.
  destruct (Heap_wrapErr_ref getStack h c cell message Hc)
    as (e & copied & Hec & Hcc & Hne & He & Hcopied & Hwrap).
  eexists e, _. split; [exact Hwrap|].
  set (h1 := <[e := _]> _).
  assert (e ≠ d) as Hed by congruence. assert (copied ≠ d) as Hcd by congruence.
  assert (∀ cell' fuel t,
            Heap.load fuel (Heap.assign h1 d cell') (Heap.vref d) = Some t →
            Heap.load (S (S fuel)) (Heap.assign h1 d cell') (Heap.vref e)
            = Some (ref (mkError (ref (mkError t (Heap.cMessage cell) (Heap.cStackTrace cell)))
                           message None))) as Hshare.
  { intros cell' fuel t Hload.
    apply (load_vref_intro _ _ _ (Heap.mkCell (Heap.vref copied) message None)).
    { rewrite lookup_assign_ne by done. apply lookup_insert_eq. }
    apply load_vref_intro.
    { rewrite lookup_assign_ne by done. unfold h1.
      by rewrite lookup_insert_ne, lookup_insert_eq. }
    by rewrite Hinner. }
  split; [done|]. intros message'. apply (Hshare _ 1%nat).
  rewrite load_S. unfold Heap.assign. by rewrite lookup_insert_eq.
Qed.

Lemma Wrap_shares_inner_witness :
  ∃ (e : Heap.loc) (h1 : Heap.heap),
    Heap.wrapErr (Ok None) heap_wrapped (Heap.vref 2%positive) "outer" = Ok (h1, Heap.vref e) ∧
    (∀ (cell' : Heap.cell) (fuel : nat) (t : error),
       Heap.load fuel (Heap.assign h1 1%positive cell') (Heap.vref 1%positive) = Some t →
       Heap.load (S (S fuel)) (Heap.assign h1 1%positive cell') (Heap.vref e)
       = Some (ref (mkError (ref (mkError t "middle" None)) "outer" None))) ∧
    (∀ message' : string,
       Heap.load 3 (Heap.assign h1 1%positive (Heap.mkCell Heap.vnil message' None))
         (Heap.vref e)
       = Some (ref (mkError (ref (mkError (ref (mkError nil_error message' None))
                                    "middle" None))
                      "outer" None))).
Proof.
  apply (Wrap_shares_inner (Ok None) heap_wrapped 2%positive 1%positive
           (Heap.mkCell (Heap.vref 1%positive) "middle" None)
           (Heap.mkCell Heap.vnil "inner" (Some trace_main)) "outer");
    reflexivity.
Defined.
